(** * The m68k architecture binding of the Unicorn engine

    A shallow embedding of [qemu/target/m68k/unicorn.c]: the register
    accessors [reg_read] and [reg_write], the batch dispatchers, the live
    and context entry points, and the lifecycle hooks that touch the
    register file.  State is passed explicitly; a C function that mutates
    through a pointer returns the new state next to its result. *)

From Stdlib Require Import ZArith Lia.
From stdpp Require Import base option list gmap.

Local Open Scope Z_scope.

(** ** Error codes *)

(** [uc_err] is declared in the public header.  This file names two of its
    constants; every other code of the enumeration is kept as
    [UC_ERR_OTHER]. *)
Inductive uc_err : Type :=
  | UC_ERR_OK
  | UC_ERR_ARG
  | UC_ERR_OTHER (code : nat).

(** The C test [if (err)]: true for every code but [UC_ERR_OK], which is 0. *)
Definition err_set (e : uc_err) : bool :=
  match e with
  | UC_ERR_OK => false
  | _ => true
  end.

(** ** Machine integers *)

(** Conversion to [uint32_t]. *)
Definition uint32 (v : Z) : Z := v mod 2 ^ 32.

(** [sizeof(uint32_t)]. *)
Definition sizeof_uint32_t : Z := 4.

(** ** CPU state *)

(** Modelled from the spec: the declaration of [CPUM68KState] is in
    [cpu.h], which is not part of this file.  The fields are the ones the
    accessors name; each is a 4-byte field (spec, section 6), the two
    register banks holding eight of them. *)
Record CPUM68KState : Type := mkEnv {
  aregs : list Z;
  dregs : list Z;
  pc : Z;
  sr : Z
}.

Definition set_aregs (e : CPUM68KState) (l : list Z) : CPUM68KState :=
  mkEnv l (dregs e) (pc e) (sr e).
Definition set_dregs (e : CPUM68KState) (l : list Z) : CPUM68KState :=
  mkEnv (aregs e) l (pc e) (sr e).
Definition set_pc_field (e : CPUM68KState) (v : Z) : CPUM68KState :=
  mkEnv (aregs e) (dregs e) v (sr e).

(** The banks are [uint32_t[8]] arrays. *)
Definition wf_env (e : CPUM68KState) : Prop :=
  length (aregs e) = 8%nat /\ length (dregs e) = 8%nat.

(** The per-mode translation caches, [cpu->neg.tlb.d] and
    [cpu->neg.tlb.f]: one descriptor and one fast table per MMU mode, each
    owning an allocation (named here by a handle). *)
Record CPUTLBDesc : Type := { iotlb : option nat }.
Record CPUTLBDescFast : Type := { table : option nat }.
Record CPUTLB : Type := {
  tlb_d : list CPUTLBDesc;
  tlb_f : list CPUTLBDescFast
}.

Record M68kCPU : Type := mkCPU {
  env : CPUM68KState;
  neg_tlb : CPUTLB
}.

(** The engine.  [break_signals] counts the calls of
    [break_translation_loop] made on this engine: the translation loop is
    an external collaborator, and the call itself is what is observed. *)
Record uc_struct : Type := mkUc {
  cpu : M68kCPU;
  quit_request : bool;
  break_signals : nat
}.

(** A context snapshot: [ctx->data] holds a detached register file. *)
Record uc_context : Type := mkCtx { data : CPUM68KState }.

Definition set_env (uc : uc_struct) (e : CPUM68KState) : uc_struct :=
  mkUc (mkCPU e (neg_tlb (cpu uc))) (quit_request uc) (break_signals uc).
Definition set_quit_request (uc : uc_struct) (b : bool) : uc_struct :=
  mkUc (cpu uc) b (break_signals uc).

(** Modelled from the spec: [break_translation_loop] is defined in
    [uc_priv.h], outside this file.  The spec (section 4.3) has it signal
    the translation-loop controller; the signal is recorded in
    [break_signals]. *)
Definition break_translation_loop (uc : uc_struct) : uc_struct :=
  mkUc (cpu uc) (quit_request uc) (S (break_signals uc)).

(** ** The width check *)

(** What a use of the macro does to the enclosing function: it either
    returns from it with an error code, or falls through after assigning
    [ret]. *)
Inductive check_outcome : Type :=
  | Returns (e : uc_err)
  | Continues (ret : uc_err).

(** Modelled from the spec: the macro [CHECK_REG_TYPE] is defined in
    [uc_priv.h], outside this file.  The spec (sections 3 and 4.1) has the
    accessor verify that the declared size equals the width of the
    register, failing with invalid-argument and without touching anything
    when it does not.  [size] is [None] for the null pointer the batch
    functions pass when the caller gave no [sizes] array: nothing is
    declared, so nothing is checked. *)
Definition CHECK_REG_TYPE (size : option Z) (width : Z) : check_outcome :=
  match size with
  | Some s => if s =? width then Continues UC_ERR_OK else Returns UC_ERR_ARG
  | None => Continues UC_ERR_OK
  end.

(** ** Register identifiers *)

(** The enumeration [uc_m68k_reg] is declared in the public header; the
    accessors use six of its constants.  They are parameters of the
    development. *)
Class uc_m68k_reg : Type := {
  UC_M68K_REG_A0 : Z;
  UC_M68K_REG_A7 : Z;
  UC_M68K_REG_D0 : Z;
  UC_M68K_REG_D7 : Z;
  UC_M68K_REG_PC : Z;
  UC_M68K_REG_SR : Z
}.

(** [cpu_m68k_set_sr] is defined in the translator's helper file.  It
    receives the whole CPU state and may rewrite any of it. *)
Class m68k_helper : Type := {
  cpu_m68k_set_sr : CPUM68KState -> Z -> CPUM68KState
}.

(** Caller buffers.  A [void *] handed to [reg_read] names one caller
    buffer; [memory] maps each buffer to the [uint32_t] it holds.  Two
    entries of a batch may name the same buffer. *)
Abbreviation addr := nat (only parsing).
Abbreviation memory := (gmap nat Z) (only parsing).

Section Accessors.
Context {ids : uc_m68k_reg} {helper : m68k_helper}.

Definition in_aregs (regid : Z) : bool :=
  (UC_M68K_REG_A0 <=? regid) && (regid <=? UC_M68K_REG_A7).
Definition in_dregs (regid : Z) : bool :=
  (UC_M68K_REG_D0 <=? regid) && (regid <=? UC_M68K_REG_D7).

(** [reg_read]: the result and the caller memory after the call. *)
Definition reg_read (env : CPUM68KState) (regid : Z) (value : addr)
    (size : option Z) (m : memory) : uc_err * memory :=
  let ret := UC_ERR_ARG in
  if in_aregs regid then
    match CHECK_REG_TYPE size sizeof_uint32_t with
    | Returns e => (e, m)
    | Continues ret =>
        (ret, <[value := aregs env !!! Z.to_nat (regid - UC_M68K_REG_A0)]> m)
    end
  else if in_dregs regid then
    match CHECK_REG_TYPE size sizeof_uint32_t with
    | Returns e => (e, m)
    | Continues ret =>
        (ret, <[value := dregs env !!! Z.to_nat (regid - UC_M68K_REG_D0)]> m)
    end
  else if regid =? UC_M68K_REG_PC then
    match CHECK_REG_TYPE size sizeof_uint32_t with
    | Returns e => (e, m)
    | Continues ret => (ret, <[value := pc env]> m)
    end
  else if regid =? UC_M68K_REG_SR then
    match CHECK_REG_TYPE size sizeof_uint32_t with
    | Returns e => (e, m)
    | Continues ret => (ret, <[value := sr env]> m)
    end
  else (ret, m).

(** [reg_write]: [value] is the content of the caller's buffer, loaded
    as a [uint32_t]; the result, the state and [*setpc] after the call. *)
Definition reg_write (env : CPUM68KState) (regid : Z) (value : Z)
    (size : option Z) (setpc : Z) : uc_err * CPUM68KState * Z :=
  let ret := UC_ERR_ARG in
  if in_aregs regid then
    match CHECK_REG_TYPE size sizeof_uint32_t with
    | Returns e => (e, env, setpc)
    | Continues ret =>
        (ret,
         set_aregs env
           (<[Z.to_nat (regid - UC_M68K_REG_A0) := uint32 value]> (aregs env)),
         setpc)
    end
  else if in_dregs regid then
    match CHECK_REG_TYPE size sizeof_uint32_t with
    | Returns e => (e, env, setpc)
    | Continues ret =>
        (ret,
         set_dregs env
           (<[Z.to_nat (regid - UC_M68K_REG_D0) := uint32 value]> (dregs env)),
         setpc)
    end
  else if regid =? UC_M68K_REG_PC then
    match CHECK_REG_TYPE size sizeof_uint32_t with
    | Returns e => (e, env, setpc)
    | Continues ret => (ret, set_pc_field env (uint32 value), 1)
    end
  else if regid =? UC_M68K_REG_SR then
    match CHECK_REG_TYPE size sizeof_uint32_t with
    | Returns e => (e, env, setpc)
    | Continues ret => (ret, cpu_m68k_set_sr env (uint32 value), setpc)
    end
  else (ret, env, setpc).

(** [sizes ? sizes + i : NULL], with the pointee the macro reads. *)
Definition size_at (sizes : option (list Z)) (i : nat) : option Z :=
  match sizes with
  | Some l => Some (l !!! i)
  | None => None
  end.

(** The loop of [reg_read_batch], with [n] iterations left from index
    [i].  The arrays hold [count] entries by the contract of the call;
    reading one past its end is outside that contract, and [!!!] yields
    a fixed value there. *)
Fixpoint reg_read_loop (n i : nat) (env : CPUM68KState) (regs : list Z)
    (vals : list addr) (sizes : option (list Z)) (m : memory)
    : uc_err * memory :=
  match n with
  | O => (UC_ERR_OK, m)
  | S n' =>
      let regid := regs !!! i in
      let value := vals !!! i in
      let '(err, m') := reg_read env regid value (size_at sizes i) m in
      if err_set err then (err, m')
      else reg_read_loop n' (S i) env regs vals sizes m'
  end.

(** [count] is an [int]: the loop does not run when it is negative. *)
Definition reg_read_batch (env : CPUM68KState) (regs : list Z)
    (vals : list addr) (sizes : option (list Z)) (count : Z) (m : memory)
    : uc_err * memory :=
  reg_read_loop (Z.to_nat count) 0 env regs vals sizes m.

(** The loop of [reg_write_batch]. *)
Fixpoint reg_write_loop (n i : nat) (env : CPUM68KState) (regs : list Z)
    (vals : list Z) (sizes : option (list Z)) (setpc : Z)
    : uc_err * CPUM68KState * Z :=
  match n with
  | O => (UC_ERR_OK, env, setpc)
  | S n' =>
      let regid := regs !!! i in
      let value := vals !!! i in
      let '(err, env', setpc') :=
        reg_write env regid value (size_at sizes i) setpc in
      if err_set err then (err, env', setpc')
      else reg_write_loop n' (S i) env' regs vals sizes setpc'
  end.

Definition reg_write_batch (env : CPUM68KState) (regs : list Z)
    (vals : list Z) (sizes : option (list Z)) (count : Z) (setpc : Z)
    : uc_err * CPUM68KState * Z :=
  reg_write_loop (Z.to_nat count) 0 env regs vals sizes setpc.

(** *** Entry points on live state *)

Definition m68k_reg_read (uc : uc_struct) (regs : list Z)
    (vals : list addr) (sizes : option (list Z)) (count : Z) (m : memory)
    : uc_err * memory :=
  let env := env (cpu uc) in
  reg_read_batch env regs vals sizes count m.

Definition m68k_reg_write (uc : uc_struct) (regs : list Z) (vals : list Z)
    (sizes : option (list Z)) (count : Z) : uc_err * uc_struct :=
  let env := env (cpu uc) in
  let setpc := 0 in
  let '(err, env', setpc) := reg_write_batch env regs vals sizes count setpc in
  let uc := set_env uc env' in
  if err_set err then (err, uc)
  else if negb (setpc =? 0) then
    (* force to quit execution and flush TB *)
    let uc := set_quit_request uc true in
    (UC_ERR_OK, break_translation_loop uc)
  else (UC_ERR_OK, uc).

(** *** Entry points on a context snapshot *)

Definition m68k_context_reg_read (ctx : uc_context) (regs : list Z)
    (vals : list addr) (sizes : option (list Z)) (count : Z) (m : memory)
    : uc_err * memory :=
  let env := data ctx in
  reg_read_batch env regs vals sizes count m.

Definition m68k_context_reg_write (ctx : uc_context) (regs : list Z)
    (vals : list Z) (sizes : option (list Z)) (count : Z)
    : uc_err * uc_context :=
  let env := data ctx in
  let setpc := 0 in
  let '(err, env', _) := reg_write_batch env regs vals sizes count setpc in
  (err, mkCtx env').

End Accessors.

(** ** Lifecycle hooks *)

(** [m68k_set_pc]: the 64-bit [address] is converted to the 4-byte field. *)
Definition m68k_set_pc (uc : uc_struct) (address : Z) : uc_struct :=
  set_env uc (set_pc_field (env (cpu uc)) (uint32 address)).

(** [m68k_get_pc]: the field, widened to [uint64_t]. *)
Definition m68k_get_pc (uc : uc_struct) : Z :=
  pc (env (cpu uc)).

(** [m68k_reg_reset]: both [memset] calls cover the whole array. *)
Definition m68k_reg_reset (uc : uc_struct) : uc_struct :=
  let env := env (cpu uc) in
  let env := set_aregs env (replicate 8 0) in
  let env := set_dregs env (replicate 8 0) in
  let env := set_pc_field env 0 in
  set_env uc env.

(** ** The contract in the spec's words *)

Section Contract.
Context {ids : uc_m68k_reg} {helper : m68k_helper}.

(** Modelled from the spec: the layout of the enumeration (sections 3
    and 6).  Each bank is eight contiguous identifiers; the banks and
    the two singletons are pairwise disjoint, so that an identifier maps
    to one field. *)
Definition directory_layout : Prop :=
  UC_M68K_REG_A7 = UC_M68K_REG_A0 + 7 /\
  UC_M68K_REG_D7 = UC_M68K_REG_D0 + 7 /\
  (UC_M68K_REG_A7 < UC_M68K_REG_D0 \/ UC_M68K_REG_D7 < UC_M68K_REG_A0) /\
  in_aregs UC_M68K_REG_PC = false /\ in_dregs UC_M68K_REG_PC = false /\
  in_aregs UC_M68K_REG_SR = false /\ in_dregs UC_M68K_REG_SR = false /\
  UC_M68K_REG_PC <> UC_M68K_REG_SR.

(** The identifiers the register directory knows. *)
Definition defined_reg (regid : Z) : bool :=
  in_aregs regid || in_dregs regid ||
  (regid =? UC_M68K_REG_PC) || (regid =? UC_M68K_REG_SR).

(** A declared size is acceptable when it is the width of the register;
    a call that declares none is not checked. *)
Definition size_ok (size : option Z) : bool :=
  match size with
  | Some s => s =? 4
  | None => true
  end.

(** The outcome of one access, as the spec words it: invalid-argument
    for an unknown identifier or a width mismatch, success otherwise. *)
Definition access_status (regid : Z) (size : option Z) : uc_err :=
  if defined_reg regid && size_ok size then UC_ERR_OK else UC_ERR_ARG.

(** The field a defined identifier maps to. *)
Definition read_value (env : CPUM68KState) (regid : Z) : Z :=
  if in_aregs regid then aregs env !!! Z.to_nat (regid - UC_M68K_REG_A0)
  else if in_dregs regid then dregs env !!! Z.to_nat (regid - UC_M68K_REG_D0)
  else if regid =? UC_M68K_REG_PC then pc env
  else sr env.

(** The state after the entries [0 .. k-1] of a write batch have been
    applied one after the other. *)
Definition write_entry (regs vals : list Z) (sizes : option (list Z))
    (st : CPUM68KState * Z) (j : nat) : CPUM68KState * Z :=
  let '(_, env', setpc') :=
    reg_write st.1 (regs !!! j) (vals !!! j) (size_at sizes j) st.2 in
  (env', setpc').

Definition writes_applied (regs vals : list Z) (sizes : option (list Z))
    (k : nat) (st : CPUM68KState * Z) : CPUM68KState * Z :=
  foldl (write_entry regs vals sizes) st (seq 0 k).

(** The caller memory after the entries [0 .. k-1] of a read batch have
    been populated one after the other. *)
Definition read_entry (env : CPUM68KState) (regs : list Z)
    (vals : list addr) (sizes : option (list Z)) (m : memory) (j : nat)
    : memory :=
  (reg_read env (regs !!! j) (vals !!! j) (size_at sizes j) m).2.

Definition reads_populated (env : CPUM68KState) (regs : list Z)
    (vals : list addr) (sizes : option (list Z)) (k : nat) (m : memory)
    : memory :=
  foldl (read_entry env regs vals sizes) m (seq 0 k).

(** The number of entries of a write batch that wrote the program
    counter successfully: the entries reached by the loop on which
    [reg_write] succeeds and raises its pc-changed flag. *)
Fixpoint pc_writes (n i : nat) (env : CPUM68KState) (regs vals : list Z)
    (sizes : option (list Z)) : nat :=
  match n with
  | O => O
  | S n' =>
      let '(err, env', flag) :=
        reg_write env (regs !!! i) (vals !!! i) (size_at sizes i) 0 in
      if err_set err then O
      else ((if (flag =? 0)%Z then 0 else 1)
            + pc_writes n' (S i) env' regs vals sizes)%nat
  end.

Definition successful_pc_writes (uc : uc_struct) (regs vals : list Z)
    (sizes : option (list Z)) (count : Z) : nat :=
  pc_writes (Z.to_nat count) 0 (env (cpu uc)) regs vals sizes.

(** Modelled from the spec: [cpu_m68k_set_sr] is outside this file.  The
    spec (sections 4.1 and 8) has a status-register write store the
    canonical form of the value, a function of the value alone that is
    idempotent; the form fits the 4-byte field. *)
Definition sr_canonicalizer (canonical_sr : Z -> Z) : Prop :=
  (forall env v, sr (cpu_m68k_set_sr env v) = canonical_sr v) /\
  (forall v, canonical_sr (canonical_sr v) = canonical_sr v) /\
  (forall v, 0 <= canonical_sr v < 2 ^ 32).

(** What a read returns after [V] was written to [regid]. *)
Definition read_back (canonical_sr : Z -> Z) (regid V : Z) : Z :=
  if regid =? UC_M68K_REG_SR then canonical_sr V else V.

End Contract.

(** The engine and one context snapshot side by side.  A live call
    receives the engine, a context call the snapshot; neither can reach
    the other object, which comes back as it went in. *)
Record machine : Type := mkMachine {
  live : uc_struct;
  saved : uc_context
}.

Section Machine.
Context {ids : uc_m68k_reg} {helper : m68k_helper}.

Definition live_reg_write (w : machine) (regs vals : list Z)
    (sizes : option (list Z)) (count : Z) : uc_err * machine :=
  let '(err, uc') := m68k_reg_write (live w) regs vals sizes count in
  (err, mkMachine uc' (saved w)).

Definition context_reg_write (w : machine) (regs vals : list Z)
    (sizes : option (list Z)) (count : Z) : uc_err * machine :=
  let '(err, ctx') := m68k_context_reg_write (saved w) regs vals sizes count in
  (err, mkMachine (live w) ctx').

End Machine.

(** ** Concrete parameters *)

(** The identifiers in the order of the public header: the invalid
    identifier 0, then A0..A7, D0..D7, SR and PC. *)
Definition m68k_ids : uc_m68k_reg :=
  {| UC_M68K_REG_A0 := 1; UC_M68K_REG_A7 := 8;
     UC_M68K_REG_D0 := 9; UC_M68K_REG_D7 := 16;
     UC_M68K_REG_PC := 18; UC_M68K_REG_SR := 17 |}.

(** A status-register helper that keeps bits 5 to 15 of the value. *)
Definition masked_sr (v : Z) : Z := Z.land v 65504.

Definition masking_helper : m68k_helper :=
  {| cpu_m68k_set_sr := fun env v =>
       mkEnv (aregs env) (dregs env) (pc env) (masked_sr v) |}.

(** A freshly constructed engine: zeroed register file, one MMU mode. *)
Definition zero_env : CPUM68KState :=
  mkEnv (replicate 8 0) (replicate 8 0) 0 0.

(** An engine in the middle of a run: every register set, the quit flag
    up and three signals delivered. *)
Definition busy_uc : uc_struct :=
  mkUc (mkCPU (mkEnv [1; 2; 3; 4; 5; 6; 7; 8] [9; 10; 11; 12; 13; 14; 15; 16]
                 4096 9984)
          {| tlb_d := [ {| iotlb := Some 1%nat |} ];
             tlb_f := [ {| table := Some 2%nat |} ] |})
       true 3.

Definition fresh_uc : uc_struct :=
  mkUc (mkCPU zero_env
          {| tlb_d := [ {| iotlb := Some 1%nat |} ];
             tlb_f := [ {| table := Some 2%nat |} ] |})
       false 0.

(** ** The rest of the file: teardown, and notions for its properties *)

(** What [m68k_release] asks of its collaborators: the generic teardown
    [release_common], and [g_free] on a pointer.  Both are defined outside
    this file; the calls are recorded in the order they are made. *)
Inductive teardown_call : Type :=
  | Call_release_common
  | Call_g_free (p : option nat).

(** [NB_MMU_MODES] comes from the target's parameter header. *)
Class mmu_param : Type := { NB_MMU_MODES : nat }.

#[global] Instance CPUTLBDesc_inhabited : Inhabited CPUTLBDesc :=
  populate {| iotlb := None |}.
#[global] Instance CPUTLBDescFast_inhabited : Inhabited CPUTLBDescFast :=
  populate {| table := None |}.

(** The loop of [m68k_release], with [n] iterations left from index [i]. *)
Fixpoint release_loop (n i : nat) (d : list CPUTLBDesc)
    (f : list CPUTLBDescFast) (calls : list teardown_call)
    : list teardown_call :=
  match n with
  | O => calls
  | S n' =>
      let desc := d !!! i in
      let fast := f !!! i in
      let calls := calls ++ [Call_g_free (iotlb desc)] in
      let calls := calls ++ [Call_g_free (table fast)] in
      release_loop n' (S i) d f calls
  end.

(** [m68k_release], on the engine [tcg_ctx->uc]: the calls made so far,
    extended by the calls of this run.  The descriptors are those of the
    CPU object, which the function only reads. *)
Definition m68k_release {mmu : mmu_param} (uc : uc_struct)
    (calls : list teardown_call) : list teardown_call :=
  let cpu := cpu uc in
  let d := tlb_d (neg_tlb cpu) in
  let f := tlb_f (neg_tlb cpu) in
  let calls := calls ++ [Call_release_common] in
  release_loop NB_MMU_MODES 0 d f calls.

(** The pointers the translation caches of a CPU hold, mode by mode. *)
Definition tlb_pointers (n : nat) (c : M68kCPU) : list (option nat) :=
  i ← seq 0 n; [iotlb (tlb_d (neg_tlb c) !!! i); table (tlb_f (neg_tlb c) !!! i)].

Section MoreContract.
Context {ids : uc_m68k_reg} {helper : m68k_helper}.

(** The store a successful [reg_write] makes for [regid]. *)
Definition store_reg (env : CPUM68KState) (regid value : Z) : CPUM68KState :=
  if in_aregs regid then
    set_aregs env
      (<[Z.to_nat (regid - UC_M68K_REG_A0) := uint32 value]> (aregs env))
  else if in_dregs regid then
    set_dregs env
      (<[Z.to_nat (regid - UC_M68K_REG_D0) := uint32 value]> (dregs env))
  else if regid =? UC_M68K_REG_PC then set_pc_field env (uint32 value)
  else cpu_m68k_set_sr env (uint32 value).

(** Every bank entry and the program counter are 32-bit values. *)
Definition regs_32bit (e : CPUM68KState) : Prop :=
  Forall (fun v => 0 <= v < 2 ^ 32) (aregs e) /\
  Forall (fun v => 0 <= v < 2 ^ 32) (dregs e) /\
  0 <= pc e < 2 ^ 32.

(** The register file has the shape of the C structure. *)
Definition env_ok (e : CPUM68KState) : Prop := wf_env e /\ regs_32bit e.

(** The number of program-counter identifiers among the entries
    [i .. i+n-1]. *)
Definition pc_entries (regs : list Z) (i n : nat) : nat :=
  length (filter (fun j => regs !!! j = UC_M68K_REG_PC) (seq i n)).

(** The [sizes] argument of a call on entry [j] alone. *)
Definition single_sizes (sizes : option (list Z)) (j : nat)
    : option (list Z) :=
  (fun l => [l !!! j]) <$> sizes.

(** The entries [0 .. n-1] written by one live call each, in order. *)
Definition live_write_each (regs vals : list Z) (sizes : option (list Z))
    (n : nat) (uc : uc_struct) : uc_struct :=
  foldl (fun uc j =>
           (m68k_reg_write uc [regs !!! j] [vals !!! j]
              (single_sizes sizes j) 1).2)
        uc (seq 0 n).

End MoreContract.

(** Two MMU modes, and an engine whose caches hold four allocations. *)
Definition two_modes : mmu_param := {| NB_MMU_MODES := 2 |}.

Definition two_mode_uc : uc_struct :=
  mkUc (mkCPU zero_env
          {| tlb_d := [ {| iotlb := Some 1%nat |}; {| iotlb := Some 3%nat |} ];
             tlb_f := [ {| table := Some 2%nat |}; {| table := Some 4%nat |} ] |})
       false 0.

(** ** Facts about the accessors *)

Section Facts.
Context {ids : uc_m68k_reg} {helper : m68k_helper}.

Lemma check_reg_type_cases (size : option Z) :
  CHECK_REG_TYPE size sizeof_uint32_t =
  if size_ok size then Continues UC_ERR_OK else Returns UC_ERR_ARG.
Proof.
  unfold CHECK_REG_TYPE, size_ok, sizeof_uint32_t.
  destruct size as [s|]; [destruct (s =? 4)|]; reflexivity.
Qed.

Lemma access_status_cases (regid : Z) (size : option Z) :
  access_status regid size = UC_ERR_OK \/ access_status regid size = UC_ERR_ARG.
Proof. unfold access_status. destruct (_ && _); auto. Qed.

Lemma access_status_ok (regid : Z) (size : option Z) :
  access_status regid size = UC_ERR_OK <->
  defined_reg regid = true /\ size_ok size = true.
Proof.
  unfold access_status.
  destruct (defined_reg regid), (size_ok size); simpl; split;
    try tauto; try discriminate; intros [? ?]; discriminate.
Qed.

(** [reg_write] returns the status of the access, whatever the state. *)
Lemma reg_write_status env regid value size setpc :
  (reg_write env regid value size setpc).1.1 = access_status regid size.
Proof.
  unfold reg_write, access_status, defined_reg.
  rewrite check_reg_type_cases.
  destruct (in_aregs regid), (in_dregs regid), (regid =? UC_M68K_REG_PC),
    (regid =? UC_M68K_REG_SR), (size_ok size); reflexivity.
Qed.

(** A failing [reg_write] has changed nothing. *)
Lemma reg_write_fail env regid value size setpc :
  access_status regid size <> UC_ERR_OK ->
  reg_write env regid value size setpc = (UC_ERR_ARG, env, setpc).
Proof.
  unfold reg_write, access_status, defined_reg.
  rewrite check_reg_type_cases.
  destruct (in_aregs regid), (in_dregs regid), (regid =? UC_M68K_REG_PC),
    (regid =? UC_M68K_REG_SR), (size_ok size); simpl; congruence.
Qed.

Lemma reg_read_status env regid value size m :
  (reg_read env regid value size m).1 = access_status regid size.
Proof.
  unfold reg_read, access_status, defined_reg.
  rewrite check_reg_type_cases.
  destruct (in_aregs regid), (in_dregs regid), (regid =? UC_M68K_REG_PC),
    (regid =? UC_M68K_REG_SR), (size_ok size); reflexivity.
Qed.

(** A failing [reg_read] has stored nothing. *)
Lemma reg_read_fail env regid value size m :
  access_status regid size <> UC_ERR_OK ->
  reg_read env regid value size m = (UC_ERR_ARG, m).
Proof.
  unfold reg_read, access_status, defined_reg.
  rewrite check_reg_type_cases.
  destruct (in_aregs regid), (in_dregs regid), (regid =? UC_M68K_REG_PC),
    (regid =? UC_M68K_REG_SR), (size_ok size); simpl; congruence.
Qed.

(** A successful [reg_read] stores the mapped field in the buffer. *)
Lemma reg_read_ok env regid value size m :
  access_status regid size = UC_ERR_OK ->
  reg_read env regid value size m =
  (UC_ERR_OK, <[value := read_value env regid]> m).
Proof.
  unfold reg_read, access_status, defined_reg, read_value.
  rewrite check_reg_type_cases.
  destruct (in_aregs regid), (in_dregs regid), (regid =? UC_M68K_REG_PC),
    (regid =? UC_M68K_REG_SR), (size_ok size); simpl; congruence.
Qed.

Lemma status_not_ok (regid : Z) (size : option Z) :
  access_status regid size <> UC_ERR_OK ->
  access_status regid size = UC_ERR_ARG.
Proof. destruct (access_status_cases regid size); congruence. Qed.

(** *** The loops *)

Lemma reg_write_loop_ok regs vals sizes n : forall i env setpc,
  (forall j, (i <= j < i + n)%nat ->
     access_status (regs !!! j) (size_at sizes j) = UC_ERR_OK) ->
  reg_write_loop n i env regs vals sizes setpc =
  (UC_ERR_OK,
   (foldl (write_entry regs vals sizes) (env, setpc) (seq i n)).1,
   (foldl (write_entry regs vals sizes) (env, setpc) (seq i n)).2).
Proof.
  induction n as [|n IH]; intros i env setpc Hok; [reflexivity|].
  cbn [reg_write_loop seq foldl].
  pose proof (reg_write_status env (regs !!! i) (vals !!! i)
                (size_at sizes i) setpc) as Hst.
  rewrite (Hok i) in Hst by lia.
  unfold write_entry at 2 4. cbn [fst snd].
  destruct (reg_write env (regs !!! i) (vals !!! i) (size_at sizes i) setpc)
    as [[err env'] setpc'].
  cbn [fst] in Hst. subst err. cbn [err_set].
  apply IH. intros j Hj. apply Hok. lia.
Qed.

Lemma reg_write_loop_fail regs vals sizes k : forall n i env setpc,
  (k < n)%nat ->
  (forall j, (i <= j < i + k)%nat ->
     access_status (regs !!! j) (size_at sizes j) = UC_ERR_OK) ->
  access_status (regs !!! (i + k)%nat) (size_at sizes (i + k)) <> UC_ERR_OK ->
  reg_write_loop n i env regs vals sizes setpc =
  (UC_ERR_ARG,
   (foldl (write_entry regs vals sizes) (env, setpc) (seq i k)).1,
   (foldl (write_entry regs vals sizes) (env, setpc) (seq i k)).2).
Proof.
  induction k as [|k IH]; intros n i env setpc Hlt Hok Hbad.
  - destruct n as [|n]; [lia|].
    rewrite Nat.add_0_r in Hbad.
    cbn [reg_write_loop seq foldl fst snd].
    rewrite (reg_write_fail _ _ _ _ _ Hbad). reflexivity.
  - destruct n as [|n]; [lia|].
    cbn [reg_write_loop seq foldl].
    pose proof (reg_write_status env (regs !!! i) (vals !!! i)
                  (size_at sizes i) setpc) as Hst.
    rewrite (Hok i) in Hst by lia.
    unfold write_entry at 2 4. cbn [fst snd].
    destruct (reg_write env (regs !!! i) (vals !!! i) (size_at sizes i) setpc)
      as [[err env'] setpc'].
    cbn [fst] in Hst. subst err. cbn [err_set].
    apply IH; [lia| |].
    + intros j Hj. apply Hok. lia.
    + replace (S i + k)%nat with (i + S k)%nat by lia. exact Hbad.
Qed.

Lemma reg_read_loop_ok env regs vals sizes n : forall i m,
  (forall j, (i <= j < i + n)%nat ->
     access_status (regs !!! j) (size_at sizes j) = UC_ERR_OK) ->
  reg_read_loop n i env regs vals sizes m =
  (UC_ERR_OK, foldl (read_entry env regs vals sizes) m (seq i n)).
Proof.
  induction n as [|n IH]; intros i m Hok; [reflexivity|].
  cbn [reg_read_loop seq foldl]. unfold read_entry at 2.
  rewrite (reg_read_ok env _ _ _ m (Hok i ltac:(lia))).
  cbn [err_set snd]. apply IH. intros j Hj. apply Hok. lia.
Qed.

Lemma reg_read_loop_fail env regs vals sizes k : forall n i m,
  (k < n)%nat ->
  (forall j, (i <= j < i + k)%nat ->
     access_status (regs !!! j) (size_at sizes j) = UC_ERR_OK) ->
  access_status (regs !!! (i + k)%nat) (size_at sizes (i + k)) <> UC_ERR_OK ->
  reg_read_loop n i env regs vals sizes m =
  (UC_ERR_ARG, foldl (read_entry env regs vals sizes) m (seq i k)).
Proof.
  induction k as [|k IH]; intros n i m Hlt Hok Hbad.
  - destruct n as [|n]; [lia|].
    rewrite Nat.add_0_r in Hbad.
    cbn [reg_read_loop seq foldl].
    rewrite (reg_read_fail _ _ _ _ _ Hbad). reflexivity.
  - destruct n as [|n]; [lia|].
    cbn [reg_read_loop seq foldl]. unfold read_entry at 2.
    rewrite (reg_read_ok env _ _ _ m (Hok i ltac:(lia))).
    cbn [err_set snd]. apply IH; [lia| |].
    + intros j Hj. apply Hok. lia.
    + replace (S i + k)%nat with (i + S k)%nat by lia. exact Hbad.
Qed.

End Facts.

Section BatchFacts.
Context {ids : uc_m68k_reg} {helper : m68k_helper}.

(** Either every one of the first [n] entries is acceptable, or there is
    a first one that is not. *)
Lemma first_failure (regs : list Z) (sizes : option (list Z)) (n : nat) :
  (forall j, (j < n)%nat ->
     access_status (regs !!! j) (size_at sizes j) = UC_ERR_OK) \/
  (exists k, (k < n)%nat /\
     (forall j, (j < k)%nat ->
        access_status (regs !!! j) (size_at sizes j) = UC_ERR_OK) /\
     access_status (regs !!! k) (size_at sizes k) <> UC_ERR_OK).
Proof.
  induction n as [|n [Hall | (k & Hk & Hpre & Hbad)]].
  - left. intros j Hj. lia.
  - destruct (access_status_cases (regs !!! n) (size_at sizes n)) as [Hn | Hn].
    + left. intros j Hj.
      destruct (decide (j = n)) as [-> | Hne]; [exact Hn | apply Hall; lia].
    + right. exists n. repeat split; [lia | exact Hall | congruence].
  - right. exists k. repeat split; [lia | exact Hpre | exact Hbad].
Qed.

Lemma foldl_ext_in {A B : Type} (f g : A -> B -> A) (l : list B) :
  forall a, (forall x b, x ∈ l -> f b x = g b x) -> foldl f a l = foldl g a l.
Proof.
  induction l as [|x l IH]; intros a H; [reflexivity|].
  cbn [foldl]. rewrite (H x a) by (apply list_elem_of_here).
  apply IH. intros y b Hy. apply H. by apply list_elem_of_further.
Qed.

Lemma elem_of_seq_0 (j k : nat) : j ∈ seq 0 k -> (j < k)%nat.
Proof. rewrite list_elem_of_In, in_seq. lia. Qed.

(** The prefix effects look at the entries below [k] only. *)
Lemma writes_applied_ext regs vals sizes regs' vals' sizes' k st :
  (forall j, (j < k)%nat ->
     regs !!! j = regs' !!! j /\ vals !!! j = vals' !!! j /\
     size_at sizes j = size_at sizes' j) ->
  writes_applied regs vals sizes k st = writes_applied regs' vals' sizes' k st.
Proof.
  intros H. unfold writes_applied. apply foldl_ext_in.
  intros j b Hj. apply elem_of_seq_0 in Hj.
  destruct (H j Hj) as (Hr & Hv & Hs).
  unfold write_entry. rewrite Hr, Hv, Hs. reflexivity.
Qed.

Lemma reads_populated_ext env regs vals sizes regs' vals' sizes' k m :
  (forall j, (j < k)%nat ->
     regs !!! j = regs' !!! j /\ vals !!! j = vals' !!! j /\
     size_at sizes j = size_at sizes' j) ->
  reads_populated env regs vals sizes k m =
  reads_populated env regs' vals' sizes' k m.
Proof.
  intros H. unfold reads_populated. apply foldl_ext_in.
  intros j b Hj. apply elem_of_seq_0 in Hj.
  destruct (H j Hj) as (Hr & Hv & Hs).
  unfold read_entry. rewrite Hr, Hv, Hs. reflexivity.
Qed.

Lemma reads_populated_S env regs vals sizes k m :
  reads_populated env regs vals sizes (S k) m =
  read_entry env regs vals sizes (reads_populated env regs vals sizes k m) k.
Proof.
  unfold reads_populated. rewrite seq_S, foldl_app. reflexivity.
Qed.

(** A buffer that no entry below [k] names keeps its content. *)
Lemma reads_populated_other env regs vals sizes k m p :
  (forall j, (j < k)%nat -> vals !!! j <> p) ->
  reads_populated env regs vals sizes k m !! p = m !! p.
Proof.
  induction k as [|k IH]; intros Hp; [reflexivity|].
  rewrite reads_populated_S. unfold read_entry.
  destruct (access_status_cases (regs !!! k) (size_at sizes k)) as [Hk | Hk].
  - rewrite (reg_read_ok _ _ _ _ _ Hk). cbn [snd].
    rewrite lookup_insert_ne by (apply Hp; lia).
    apply IH. intros j Hj. apply Hp. lia.
  - rewrite reg_read_fail by congruence. cbn [snd].
    apply IH. intros j Hj. apply Hp. lia.
Qed.

(** The buffer of an entry below [k] holds the register of that entry,
    unless a later entry below [k] names the same buffer. *)
Lemma reads_populated_entry env regs vals sizes k m j :
  (j < k)%nat ->
  (forall i, (i < k)%nat ->
     access_status (regs !!! i) (size_at sizes i) = UC_ERR_OK) ->
  (forall i, (j < i < k)%nat -> vals !!! i <> vals !!! j) ->
  reads_populated env regs vals sizes k m !! (vals !!! j) =
  Some (read_value env (regs !!! j)).
Proof.
  induction k as [|k IH]; intros Hj Hok Hfresh; [lia|].
  rewrite reads_populated_S. unfold read_entry.
  rewrite (reg_read_ok _ _ _ _ _ (Hok k ltac:(lia))). cbn [snd].
  destruct (decide (j = k)) as [-> | Hne].
  - apply lookup_insert_eq.
  - rewrite lookup_insert_ne by (apply Hfresh; lia).
    apply IH; [lia | |].
    + intros i Hi. apply Hok. lia.
    + intros i Hi. apply Hfresh. lia.
Qed.

(** *** How a batch ends *)

Lemma reg_write_batch_cases env regs vals sizes count setpc :
  ((forall j, (j < Z.to_nat count)%nat ->
      access_status (regs !!! j) (size_at sizes j) = UC_ERR_OK) /\
   reg_write_batch env regs vals sizes count setpc =
     (UC_ERR_OK,
      (writes_applied regs vals sizes (Z.to_nat count) (env, setpc)).1,
      (writes_applied regs vals sizes (Z.to_nat count) (env, setpc)).2)) \/
  (exists k, (k < Z.to_nat count)%nat /\
     (forall j, (j < k)%nat ->
        access_status (regs !!! j) (size_at sizes j) = UC_ERR_OK) /\
     access_status (regs !!! k) (size_at sizes k) <> UC_ERR_OK /\
     reg_write_batch env regs vals sizes count setpc =
       (UC_ERR_ARG,
        (writes_applied regs vals sizes k (env, setpc)).1,
        (writes_applied regs vals sizes k (env, setpc)).2)).
Proof.
  unfold reg_write_batch, writes_applied.
  destruct (first_failure regs sizes (Z.to_nat count))
    as [Hall | (k & Hk & Hpre & Hbad)].
  - left. split; [exact Hall|].
    apply reg_write_loop_ok. intros j Hj. apply Hall. lia.
  - right. exists k. repeat split; try assumption.
    apply reg_write_loop_fail; [exact Hk | | exact Hbad].
    intros j Hj. apply Hpre. lia.
Qed.

Lemma reg_read_batch_cases env regs vals sizes count m :
  ((forall j, (j < Z.to_nat count)%nat ->
      access_status (regs !!! j) (size_at sizes j) = UC_ERR_OK) /\
   reg_read_batch env regs vals sizes count m =
     (UC_ERR_OK, reads_populated env regs vals sizes (Z.to_nat count) m)) \/
  (exists k, (k < Z.to_nat count)%nat /\
     (forall j, (j < k)%nat ->
        access_status (regs !!! j) (size_at sizes j) = UC_ERR_OK) /\
     access_status (regs !!! k) (size_at sizes k) <> UC_ERR_OK /\
     reg_read_batch env regs vals sizes count m =
       (UC_ERR_ARG, reads_populated env regs vals sizes k m)).
Proof.
  unfold reg_read_batch, reads_populated.
  destruct (first_failure regs sizes (Z.to_nat count))
    as [Hall | (k & Hk & Hpre & Hbad)].
  - left. split; [exact Hall|].
    apply reg_read_loop_ok. intros j Hj. apply Hall. lia.
  - right. exists k. repeat split; try assumption.
    apply reg_read_loop_fail; [exact Hk | | exact Hbad].
    intros j Hj. apply Hpre. lia.
Qed.

Lemma reg_write_batch_err env regs vals sizes count setpc :
  (reg_write_batch env regs vals sizes count setpc).1.1 = UC_ERR_OK \/
  (reg_write_batch env regs vals sizes count setpc).1.1 = UC_ERR_ARG.
Proof.
  destruct (reg_write_batch_cases env regs vals sizes count setpc)
    as [[_ ->] | (k & _ & _ & _ & ->)]; auto.
Qed.

Lemma reg_read_batch_err env regs vals sizes count m :
  (reg_read_batch env regs vals sizes count m).1 = UC_ERR_OK \/
  (reg_read_batch env regs vals sizes count m).1 = UC_ERR_ARG.
Proof.
  destruct (reg_read_batch_cases env regs vals sizes count m)
    as [[_ ->] | (k & _ & _ & _ & ->)]; auto.
Qed.

(** *** The pc-changed flag *)

(** [reg_write] leaves the flag alone or sets it to 1, and which of the
    two does not depend on the flag it was given. *)
Lemma reg_write_flag env regid value size setpc :
  exists err env' flag,
    reg_write env regid value size 0 = (err, env', flag) /\
    reg_write env regid value size setpc =
      (err, env', if flag =? 0 then setpc else 1).
Proof.
  unfold reg_write. rewrite check_reg_type_cases.
  destruct (in_aregs regid), (in_dregs regid), (regid =? UC_M68K_REG_PC),
    (regid =? UC_M68K_REG_SR), (size_ok size);
    eexists _, _, _; split; reflexivity.
Qed.

(** After a loop that succeeds, the flag is 1 when an entry wrote the
    program counter, and what it was otherwise. *)
Lemma reg_write_loop_flag regs vals sizes n : forall i env setpc env' setpc',
  reg_write_loop n i env regs vals sizes setpc = (UC_ERR_OK, env', setpc') ->
  setpc' = if (pc_writes n i env regs vals sizes =? 0)%nat then setpc else 1.
Proof.
  induction n as [|n IH]; intros i env setpc env' setpc' H.
  - cbn in *. congruence.
  - cbn [reg_write_loop pc_writes] in *.
    destruct (reg_write_flag env (regs !!! i) (vals !!! i)
                (size_at sizes i) setpc) as (err & env1 & flag & H0 & H1).
    rewrite H0. rewrite H1 in H.
    destruct (err_set err) eqn:He; [destruct err; discriminate|].
    apply IH in H.
    destruct (flag =? 0) eqn:Hf.
    + exact H.
    + rewrite H. cbn. by destruct (_ =? _)%nat.
Qed.

Lemma set_env_id (uc : uc_struct) : set_env uc (env (cpu uc)) = uc.
Proof. destruct uc as [[e t] q b]. reflexivity. Qed.

Lemma mkCtx_id (ctx : uc_context) : mkCtx (data ctx) = ctx.
Proof. destruct ctx. reflexivity. Qed.

(** *** A batch of one entry *)

Lemma reg_read_batch_single env regid value sizes m :
  reg_read_batch env [regid] [value] sizes 1 m =
  reg_read env regid value (size_at sizes 0) m.
Proof.
  unfold reg_read_batch. change (Z.to_nat 1) with 1%nat.
  cbn [reg_read_loop].
  change ([regid] !!! 0%nat) with regid.
  change ([value] !!! 0%nat) with value.
  destruct (reg_read env regid value (size_at sizes 0) m) as [[| |c] m'];
    reflexivity.
Qed.

Lemma reg_write_batch_single env regid value sizes setpc :
  reg_write_batch env [regid] [value] sizes 1 setpc =
  reg_write env regid value (size_at sizes 0) setpc.
Proof.
  unfold reg_write_batch. change (Z.to_nat 1) with 1%nat.
  cbn [reg_write_loop].
  change ([regid] !!! 0%nat) with regid.
  change ([value] !!! 0%nat) with value.
  destruct (reg_write env regid value (size_at sizes 0) setpc)
    as [[[| |c] env'] setpc']; reflexivity.
Qed.

End BatchFacts.

Section LayoutFacts.
Context {ids : uc_m68k_reg} {helper : m68k_helper}.
Hypothesis layout : directory_layout.

Lemma layout_areg (i : Z) :
  0 <= i <= 7 -> in_aregs (UC_M68K_REG_A0 + i) = true.
Proof.
  destruct layout as (HA & _). unfold in_aregs. intros Hi.
  apply andb_true_intro. split; lia.
Qed.

Lemma layout_dreg (i : Z) :
  0 <= i <= 7 ->
  in_aregs (UC_M68K_REG_D0 + i) = false /\
  in_dregs (UC_M68K_REG_D0 + i) = true.
Proof.
  destruct layout as (HA & HD & Hdis & _). unfold in_aregs, in_dregs.
  intros Hi. split.
  - apply andb_false_iff. lia.
  - apply andb_true_intro. split; lia.
Qed.

Lemma layout_in_aregs (regid : Z) :
  in_aregs regid = true ->
  0 <= regid - UC_M68K_REG_A0 <= 7 /\ regid <> UC_M68K_REG_PC /\
  regid <> UC_M68K_REG_SR.
Proof.
  destruct layout as (HA & HD & Hdis & HPa & HPd & HSa & HSd & Hne).
  intros H. repeat split; try (unfold in_aregs in H; lia);
    intros ->; congruence.
Qed.

Lemma layout_in_dregs (regid : Z) :
  in_dregs regid = true ->
  0 <= regid - UC_M68K_REG_D0 <= 7 /\ in_aregs regid = false /\
  regid <> UC_M68K_REG_PC /\ regid <> UC_M68K_REG_SR.
Proof.
  destruct layout as (HA & HD & Hdis & HPa & HPd & HSa & HSd & Hne).
  intros H. repeat split; try (unfold in_dregs in H; lia);
    try (intros ->; congruence).
  unfold in_aregs, in_dregs in *. apply andb_false_iff. lia.
Qed.

(** Under the layout, the entry that raises the pc-changed flag is the
    one on the program-counter identifier. *)
Lemma reg_write_flag_pc env regid value size :
  access_status regid size = UC_ERR_OK ->
  exists env',
    reg_write env regid value size 0 =
    (UC_ERR_OK, env', if regid =? UC_M68K_REG_PC then 1 else 0).
Proof.
  destruct layout as (HA & HD & Hdis & HPa & HPd & HSa & HSd & Hne).
  intros Hok. apply access_status_ok in Hok as [Hdef Hsz].
  unfold reg_write. rewrite check_reg_type_cases, Hsz.
  destruct (in_aregs regid) eqn:Ha.
  { destruct (layout_in_aregs regid Ha) as (_ & Hp & _).
    apply Z.eqb_neq in Hp. rewrite Hp. eauto. }
  destruct (in_dregs regid) eqn:Hd.
  { destruct (layout_in_dregs regid Hd) as (_ & _ & Hp & _).
    apply Z.eqb_neq in Hp. rewrite Hp. eauto. }
  destruct (regid =? UC_M68K_REG_PC) eqn:Hp; [eauto|].
  unfold defined_reg in Hdef. rewrite Ha, Hd, Hp in Hdef. cbn in Hdef.
  rewrite Hdef. eauto.
Qed.

Lemma pc_writes_pos regs vals sizes n : forall i env,
  (forall j, (i <= j < i + n)%nat ->
     access_status (regs !!! j) (size_at sizes j) = UC_ERR_OK) ->
  pc_writes n i env regs vals sizes <> O <->
  exists j, (i <= j < i + n)%nat /\ regs !!! j = UC_M68K_REG_PC.
Proof.
  induction n as [|n IH]; intros i env Hok.
  - cbn. split; [congruence | intros (j & Hj & _); lia].
  - cbn [pc_writes].
    destruct (reg_write_flag_pc env (regs !!! i) (vals !!! i)
                (size_at sizes i) (Hok i ltac:(lia))) as [env' ->].
    cbn [err_set].
    specialize (IH (S i) env' (fun j Hj => Hok j ltac:(lia))).
    destruct (regs !!! i =? UC_M68K_REG_PC) eqn:Hp.
    + split; [|cbn; lia]. intros _. exists i. split; [lia|]. lia.
    + cbn [Z.eqb Nat.add]. rewrite IH. split.
      * intros (j & Hj & Hpc). exists j. split; [lia | exact Hpc].
      * intros (j & Hj & Hpc). exists j. split; [|exact Hpc].
        destruct (decide (j = i)) as [-> | Hne]; [lia | lia].
Qed.

End LayoutFacts.

Section EntryFacts.
Context {ids : uc_m68k_reg} {helper : m68k_helper}.

(** How a live batch write ends: with the signal when every entry
    succeeded and one of them wrote the program counter, without it when
    every entry succeeded and none did, and with the failure of the
    first entry that fails, the entries before it applied and nothing
    else done. *)
Lemma m68k_reg_write_cases uc regs vals sizes count :
  let n := Z.to_nat count in
  ((forall j, (j < n)%nat ->
      access_status (regs !!! j) (size_at sizes j) = UC_ERR_OK) /\
   m68k_reg_write uc regs vals sizes count =
     (UC_ERR_OK,
      let uc' :=
        set_env uc (writes_applied regs vals sizes n (env (cpu uc), 0)).1 in
      if (successful_pc_writes uc regs vals sizes count =? 0)%nat then uc'
      else break_translation_loop (set_quit_request uc' true))) \/
  (exists k, (k < n)%nat /\
     (forall j, (j < k)%nat ->
        access_status (regs !!! j) (size_at sizes j) = UC_ERR_OK) /\
     access_status (regs !!! k) (size_at sizes k) <> UC_ERR_OK /\
     m68k_reg_write uc regs vals sizes count =
       (UC_ERR_ARG,
        set_env uc (writes_applied regs vals sizes k (env (cpu uc), 0)).1)).
Proof.
  intros n. subst n. unfold m68k_reg_write, successful_pc_writes.
  destruct (reg_write_batch_cases (env (cpu uc)) regs vals sizes count 0)
    as [[Hall Heq] | (k & Hk & Hpre & Hbad & Heq)].
  - left. split; [exact Hall|].
    rewrite Heq. cbn [err_set].
    unfold reg_write_batch in Heq.
    apply reg_write_loop_flag in Heq. rewrite Heq.
    by destruct (_ =? _)%nat.
  - right. exists k. repeat split; try assumption.
    rewrite Heq. reflexivity.
Qed.

(** The error and the register file a write entry point returns are the
    ones of the batch it runs. *)
Lemma m68k_reg_write_batch uc regs vals sizes count :
  (m68k_reg_write uc regs vals sizes count).1 =
    (reg_write_batch (env (cpu uc)) regs vals sizes count 0).1.1 /\
  env (cpu (m68k_reg_write uc regs vals sizes count).2) =
    (reg_write_batch (env (cpu uc)) regs vals sizes count 0).1.2.
Proof.
  unfold m68k_reg_write.
  destruct (reg_write_batch (env (cpu uc)) regs vals sizes count 0)
    as [[[| |c] env'] setpc]; cbn [err_set fst snd];
    [destruct (negb _)|..]; split; reflexivity.
Qed.

Lemma m68k_context_reg_write_batch ctx regs vals sizes count :
  (m68k_context_reg_write ctx regs vals sizes count).1 =
    (reg_write_batch (data ctx) regs vals sizes count 0).1.1 /\
  data (m68k_context_reg_write ctx regs vals sizes count).2 =
    (reg_write_batch (data ctx) regs vals sizes count 0).1.2.
Proof.
  unfold m68k_context_reg_write.
  destruct (reg_write_batch (data ctx) regs vals sizes count 0)
    as [[err env'] setpc]. split; reflexivity.
Qed.

End EntryFacts.

Section RoundTripFacts.
Context {ids : uc_m68k_reg} {helper : m68k_helper}.
Variable canonical_sr : Z -> Z.
Hypothesis layout : directory_layout.
Hypothesis canon : sr_canonicalizer canonical_sr.

Lemma uint32_small (V : Z) : 0 <= V < 2 ^ 32 -> uint32 V = V.
Proof. intros H. unfold uint32. by apply Z.mod_small. Qed.

Lemma read_back_range (regid V : Z) :
  0 <= V < 2 ^ 32 -> 0 <= read_back canonical_sr regid V < 2 ^ 32.
Proof.
  destruct canon as (_ & _ & Hrange). intros HV. unfold read_back.
  destruct (regid =? UC_M68K_REG_SR); [apply Hrange | exact HV].
Qed.

Lemma read_back_idem (regid V : Z) :
  read_back canonical_sr regid (read_back canonical_sr regid V) =
  read_back canonical_sr regid V.
Proof.
  destruct canon as (_ & Hidem & _). unfold read_back.
  destruct (regid =? UC_M68K_REG_SR); [apply Hidem | reflexivity].
Qed.

(** After a successful write of [V], the field the identifier maps to
    holds the read-back value; the banks keep their eight entries unless
    the helper was run. *)
Lemma round_trip_field env regid V size setpc env' setpc' :
  0 <= V < 2 ^ 32 ->
  regid = UC_M68K_REG_SR \/ wf_env env ->
  reg_write env regid V size setpc = (UC_ERR_OK, env', setpc') ->
  read_value env' regid = read_back canonical_sr regid V /\
  (regid <> UC_M68K_REG_SR -> wf_env env').
Proof.
  intros HV Hwf. pose proof (uint32_small V HV) as Hu.
  destruct layout as (HA & HD & Hdis & HPa & HPd & HSa & HSd & Hne).
  destruct canon as (Hsr & _ & _).
  unfold reg_write, read_value, read_back.
  rewrite check_reg_type_cases.
  destruct (in_aregs regid) eqn:Ha.
  { destruct (layout_in_aregs layout regid Ha) as (Hi & _ & Hs).
    destruct Hwf as [? | [Hla Hld]]; [done|].
    apply Z.eqb_neq in Hs. rewrite Hs.
    destruct (size_ok size); [|discriminate].
    intros [= <- _]. cbn [set_aregs aregs]. split.
    - rewrite list_lookup_total_insert_eq by lia. exact Hu.
    - intros _. split; cbn; [by rewrite length_insert | exact Hld]. }
  destruct (in_dregs regid) eqn:Hd.
  { destruct (layout_in_dregs layout regid Hd) as (Hi & _ & _ & Hs).
    destruct Hwf as [? | [Hla Hld]]; [done|].
    apply Z.eqb_neq in Hs. rewrite Hs.
    destruct (size_ok size); [|discriminate].
    intros [= <- _]. cbn [set_dregs dregs]. split.
    - rewrite list_lookup_total_insert_eq by lia. exact Hu.
    - intros _. split; cbn; [exact Hla | by rewrite length_insert]. }
  destruct (regid =? UC_M68K_REG_PC) eqn:Hp.
  { apply Z.eqb_eq in Hp. subst regid.
    apply Z.eqb_neq in Hne. rewrite Hne.
    destruct (size_ok size); [|discriminate].
    intros [= <- _]. cbn [set_pc_field pc]. split; [exact Hu|].
    intros _. destruct Hwf as [? | Hwf]; [apply Z.eqb_neq in Hne; done|].
    exact Hwf. }
  destruct (regid =? UC_M68K_REG_SR) eqn:Hs; [|discriminate].
  destruct (size_ok size); [|discriminate].
  intros [= <- _]. split.
  - by rewrite Hsr, Hu.
  - apply Z.eqb_eq in Hs. done.
Qed.

Lemma round_trip_read env regid V size setpc env' setpc' value size' m :
  0 <= V < 2 ^ 32 ->
  regid = UC_M68K_REG_SR \/ wf_env env ->
  reg_write env regid V size setpc = (UC_ERR_OK, env', setpc') ->
  access_status regid size' = UC_ERR_OK ->
  reg_read env' regid value size' m =
  (UC_ERR_OK, <[value := read_back canonical_sr regid V]> m).
Proof.
  intros HV Hwf Hw Hok.
  destruct (round_trip_field _ _ _ _ _ _ _ HV Hwf Hw) as [<- _].
  by apply reg_read_ok.
Qed.

End RoundTripFacts.

(** ** The claims *)

Section Claims.
Context {ids : uc_m68k_reg} {helper : m68k_helper}.

(** C2.  A batch runs its entries in index order and stops at the first
    one that fails.  When entry [k] is the first to fail, the batch
    returns the failure code of entry [k], the code [reg_write] and
    [reg_read] return for it; a write batch leaves the state in which
    entries [0 .. k-1] have been applied one after the other, a read batch
    the memory in which entries [0 .. k-1] have been populated; every
    buffer that is not the target of one of these entries is unmodified,
    and the outcome does not depend on what the entries after [k] are. *)
Theorem batch_fail_fast (env : CPUM68KState) (regs vals : list Z)
    (bufs : list addr) (sizes : option (list Z)) (count setpc : Z)
    (m : memory) (k : nat) :
  (k < Z.to_nat count)%nat ->
  (forall j, (j < k)%nat ->
     access_status (regs !!! j) (size_at sizes j) = UC_ERR_OK) ->
  access_status (regs !!! k) (size_at sizes k) <> UC_ERR_OK ->
  reg_write_batch env regs vals sizes count setpc =
    (access_status (regs !!! k) (size_at sizes k),
     (writes_applied regs vals sizes k (env, setpc)).1,
     (writes_applied regs vals sizes k (env, setpc)).2) /\
  reg_read_batch env regs bufs sizes count m =
    (access_status (regs !!! k) (size_at sizes k),
     reads_populated env regs bufs sizes k m) /\
  (forall j, (j < k)%nat ->
     (forall i, (j < i < k)%nat -> bufs !!! i <> bufs !!! j) ->
     (reg_read_batch env regs bufs sizes count m).2 !! (bufs !!! j) =
     Some (read_value env (regs !!! j))) /\
  (forall p, (forall j, (j < k)%nat -> bufs !!! j <> p) ->
     (reg_read_batch env regs bufs sizes count m).2 !! p = m !! p) /\
  (forall regs' vals' bufs' sizes' count',
     (k < Z.to_nat count')%nat ->
     (forall j, (j <= k)%nat ->
        regs !!! j = regs' !!! j /\ size_at sizes j = size_at sizes' j) ->
     (forall j, (j < k)%nat ->
        vals !!! j = vals' !!! j /\ bufs !!! j = bufs' !!! j) ->
     reg_write_batch env regs' vals' sizes' count' setpc =
       reg_write_batch env regs vals sizes count setpc /\
     reg_read_batch env regs' bufs' sizes' count' m =
       reg_read_batch env regs bufs sizes count m) /\
  (forall env0 value setpc0 buf m0,
     (reg_write env0 (regs !!! k) value (size_at sizes k) setpc0).1.1 =
       access_status (regs !!! k) (size_at sizes k) /\
     (reg_read env0 (regs !!! k) buf (size_at sizes k) m0).1 =
       access_status (regs !!! k) (size_at sizes k)).
Proof.
  intros Hk Hok Hbad.
  assert (Hw : forall regs0 vals0 sizes0 count0,
    (k < Z.to_nat count0)%nat ->
    (forall j, (j < k)%nat ->
       access_status (regs0 !!! j) (size_at sizes0 j) = UC_ERR_OK) ->
    access_status (regs0 !!! k) (size_at sizes0 k) <> UC_ERR_OK ->
    reg_write_batch env regs0 vals0 sizes0 count0 setpc =
      (UC_ERR_ARG,
       (writes_applied regs0 vals0 sizes0 k (env, setpc)).1,
       (writes_applied regs0 vals0 sizes0 k (env, setpc)).2)).
  { intros regs0 vals0 sizes0 count0 Hk0 Hok0 Hbad0.
    unfold reg_write_batch, writes_applied.
    apply reg_write_loop_fail; [exact Hk0 | | exact Hbad0].
    intros j Hj. apply Hok0. lia. }
  assert (Hr : forall regs0 bufs0 sizes0 count0,
    (k < Z.to_nat count0)%nat ->
    (forall j, (j < k)%nat ->
       access_status (regs0 !!! j) (size_at sizes0 j) = UC_ERR_OK) ->
    access_status (regs0 !!! k) (size_at sizes0 k) <> UC_ERR_OK ->
    reg_read_batch env regs0 bufs0 sizes0 count0 m =
      (UC_ERR_ARG, reads_populated env regs0 bufs0 sizes0 k m)).
  { intros regs0 bufs0 sizes0 count0 Hk0 Hok0 Hbad0.
    unfold reg_read_batch, reads_populated.
    apply reg_read_loop_fail; [exact Hk0 | | exact Hbad0].
    intros j Hj. apply Hok0. lia. }
  rewrite (status_not_ok _ _ Hbad).
  rewrite (Hw regs vals sizes count Hk Hok Hbad).
  rewrite (Hr regs bufs sizes count Hk Hok Hbad). cbn [snd].
  split; [reflexivity|]. split; [reflexivity|].
  split; [|split; [|split]]; cycle 3.
  { intros env0 value setpc0 buf m0.
    rewrite reg_write_status, reg_read_status.
    split; by apply status_not_ok. }
  - intros j Hj Hfresh. by apply reads_populated_entry.
  - intros p Hp. by apply reads_populated_other.
  - intros regs' vals' bufs' sizes' count' Hk' Hsame Hsame'.
    assert (Hok' : forall j, (j < k)%nat ->
      access_status (regs' !!! j) (size_at sizes' j) = UC_ERR_OK).
    { intros j Hj. destruct (Hsame j ltac:(lia)) as [<- <-]. by apply Hok. }
    assert (Hbad' :
      access_status (regs' !!! k) (size_at sizes' k) <> UC_ERR_OK).
    { destruct (Hsame k ltac:(lia)) as [<- <-]. exact Hbad. }
    rewrite (Hw regs' vals' sizes' count' Hk' Hok' Hbad').
    rewrite (Hr regs' bufs' sizes' count' Hk' Hok' Hbad').
    split.
    + rewrite (writes_applied_ext regs' vals' sizes' regs vals sizes); [done|].
      intros j Hj. destruct (Hsame j ltac:(lia)) as [-> ->].
      destruct (Hsame' j Hj) as [-> _]. done.
    + rewrite (reads_populated_ext env regs' bufs' sizes' regs bufs sizes);
        [done|].
      intros j Hj. destruct (Hsame j ltac:(lia)) as [-> ->].
      destruct (Hsame' j Hj) as [_ ->]. done.
Qed.

(** C3.  Every register read or write of the binding, on one register or
    on a batch, on live state or on a context snapshot, returns OK or
    INVALID_ARGUMENT and no other code. *)
Theorem only_ok_or_invalid_argument :
  (forall env regid value size m,
     (reg_read env regid value size m).1 = UC_ERR_OK \/
     (reg_read env regid value size m).1 = UC_ERR_ARG) /\
  (forall env regid value size setpc,
     (reg_write env regid value size setpc).1.1 = UC_ERR_OK \/
     (reg_write env regid value size setpc).1.1 = UC_ERR_ARG) /\
  (forall env regs vals sizes count m,
     (reg_read_batch env regs vals sizes count m).1 = UC_ERR_OK \/
     (reg_read_batch env regs vals sizes count m).1 = UC_ERR_ARG) /\
  (forall env regs vals sizes count setpc,
     (reg_write_batch env regs vals sizes count setpc).1.1 = UC_ERR_OK \/
     (reg_write_batch env regs vals sizes count setpc).1.1 = UC_ERR_ARG) /\
  (forall uc regs vals sizes count m,
     (m68k_reg_read uc regs vals sizes count m).1 = UC_ERR_OK \/
     (m68k_reg_read uc regs vals sizes count m).1 = UC_ERR_ARG) /\
  (forall uc regs vals sizes count,
     (m68k_reg_write uc regs vals sizes count).1 = UC_ERR_OK \/
     (m68k_reg_write uc regs vals sizes count).1 = UC_ERR_ARG) /\
  (forall ctx regs vals sizes count m,
     (m68k_context_reg_read ctx regs vals sizes count m).1 = UC_ERR_OK \/
     (m68k_context_reg_read ctx regs vals sizes count m).1 = UC_ERR_ARG) /\
  (forall ctx regs vals sizes count,
     (m68k_context_reg_write ctx regs vals sizes count).1 = UC_ERR_OK \/
     (m68k_context_reg_write ctx regs vals sizes count).1 = UC_ERR_ARG).
Proof.
  repeat split.
  - intros. rewrite reg_read_status. apply access_status_cases.
  - intros. rewrite reg_write_status. apply access_status_cases.
  - intros. apply reg_read_batch_err.
  - intros. apply reg_write_batch_err.
  - intros. unfold m68k_reg_read. apply reg_read_batch_err.
  - intros uc regs vals sizes count. unfold m68k_reg_write.
    pose proof (reg_write_batch_err (env (cpu uc)) regs vals sizes count 0)
      as H.
    destruct (reg_write_batch (env (cpu uc)) regs vals sizes count 0)
      as [[err env'] setpc].
    cbn [fst] in H.
    destruct H as [-> | ->]; cbn [err_set]; [destruct (negb _)|]; auto.
  - intros. unfold m68k_context_reg_read. apply reg_read_batch_err.
  - intros ctx regs vals sizes count. unfold m68k_context_reg_write.
    pose proof (reg_write_batch_err (data ctx) regs vals sizes count 0) as H.
    destruct (reg_write_batch (data ctx) regs vals sizes count 0)
      as [[err env'] setpc].
    exact H.
Qed.

(** C4.  For a defined register identifier, a read or a write that
    declares a size other than 4 bytes fails with INVALID_ARGUMENT: the
    CPU state is unchanged, and a read stores nothing in the caller's
    buffer.  It holds for the accessors and for the live and context
    entry points. *)
Theorem width_enforced (regid s : Z) :
  defined_reg regid = true ->
  s <> 4 ->
  (forall env value m,
     reg_read env regid value (Some s) m = (UC_ERR_ARG, m)) /\
  (forall env value setpc,
     reg_write env regid value (Some s) setpc = (UC_ERR_ARG, env, setpc)) /\
  (forall uc value m,
     m68k_reg_read uc [regid] [value] (Some [s]) 1 m = (UC_ERR_ARG, m)) /\
  (forall uc value,
     m68k_reg_write uc [regid] [value] (Some [s]) 1 = (UC_ERR_ARG, uc)) /\
  (forall ctx value m,
     m68k_context_reg_read ctx [regid] [value] (Some [s]) 1 m =
     (UC_ERR_ARG, m)) /\
  (forall ctx value,
     m68k_context_reg_write ctx [regid] [value] (Some [s]) 1 =
     (UC_ERR_ARG, ctx)).
Proof.
  intros Hdef Hs.
  assert (Hbad : access_status regid (Some s) <> UC_ERR_OK).
  { rewrite access_status_ok. intros [_ H]. cbn in H. lia. }
  assert (Hr : forall env value m,
    reg_read env regid value (Some s) m = (UC_ERR_ARG, m)).
  { intros. by apply reg_read_fail. }
  assert (Hw : forall env value setpc,
    reg_write env regid value (Some s) setpc = (UC_ERR_ARG, env, setpc)).
  { intros. by apply reg_write_fail. }
  repeat split; try assumption.
  - intros uc value m. unfold m68k_reg_read.
    rewrite reg_read_batch_single. apply Hr.
  - intros uc value. unfold m68k_reg_write.
    rewrite reg_write_batch_single.
    change (size_at (Some [s]) 0) with (Some s). rewrite Hw.
    cbn [err_set]. by rewrite set_env_id.
  - intros ctx value m. unfold m68k_context_reg_read.
    rewrite reg_read_batch_single. apply Hr.
  - intros ctx value. unfold m68k_context_reg_write.
    rewrite reg_write_batch_single.
    change (size_at (Some [s]) 0) with (Some s). rewrite Hw.
    by rewrite mkCtx_id.
Qed.

(** C6.  For an identifier outside both banks that is neither the
    program counter nor the status register, a read and a write fail with
    INVALID_ARGUMENT whatever size is declared, on live state and on a
    context snapshot, and change neither the state nor the caller's
    buffer. *)
Theorem unknown_identifier (regid : Z) :
  ~ (UC_M68K_REG_A0 <= regid <= UC_M68K_REG_A7) ->
  ~ (UC_M68K_REG_D0 <= regid <= UC_M68K_REG_D7) ->
  regid <> UC_M68K_REG_PC ->
  regid <> UC_M68K_REG_SR ->
  (forall env value size m,
     reg_read env regid value size m = (UC_ERR_ARG, m)) /\
  (forall env value size setpc,
     reg_write env regid value size setpc = (UC_ERR_ARG, env, setpc)) /\
  (forall uc value sizes m,
     m68k_reg_read uc [regid] [value] sizes 1 m = (UC_ERR_ARG, m)) /\
  (forall uc value sizes,
     m68k_reg_write uc [regid] [value] sizes 1 = (UC_ERR_ARG, uc)) /\
  (forall ctx value sizes m,
     m68k_context_reg_read ctx [regid] [value] sizes 1 m = (UC_ERR_ARG, m)) /\
  (forall ctx value sizes,
     m68k_context_reg_write ctx [regid] [value] sizes 1 = (UC_ERR_ARG, ctx)).
Proof.
  intros HA HD HPC HSR.
  assert (Hbad : forall size, access_status regid size <> UC_ERR_OK).
  { intros size. rewrite access_status_ok. intros [H _].
    unfold defined_reg, in_aregs, in_dregs in H.
    repeat (apply orb_prop in H; destruct H as [H | H]); lia. }
  assert (Hr : forall env value size m,
    reg_read env regid value size m = (UC_ERR_ARG, m)).
  { intros. by apply reg_read_fail. }
  assert (Hw : forall env value size setpc,
    reg_write env regid value size setpc = (UC_ERR_ARG, env, setpc)).
  { intros. by apply reg_write_fail. }
  repeat split; try assumption.
  - intros uc value sizes m. unfold m68k_reg_read.
    rewrite reg_read_batch_single. apply Hr.
  - intros uc value sizes. unfold m68k_reg_write.
    rewrite reg_write_batch_single, Hw.
    cbn [err_set]. by rewrite set_env_id.
  - intros ctx value sizes m. unfold m68k_context_reg_read.
    rewrite reg_read_batch_single. apply Hr.
  - intros ctx value sizes. unfold m68k_context_reg_write.
    rewrite reg_write_batch_single, Hw.
    by rewrite mkCtx_id.
Qed.

(** C7.  After the reset hook, each of the eight address registers, each
    of the eight data registers and the program counter reads as zero
    through the live read entry point; the status register, the
    per-mode translation caches, the quit flag and the record of signals
    are what they were before. *)
Theorem reset_zeroes_registers (uc : uc_struct) :
  directory_layout ->
  (forall i value sizes m, 0 <= i <= 7 -> size_ok (size_at sizes 0) = true ->
     m68k_reg_read (m68k_reg_reset uc) [UC_M68K_REG_A0 + i] [value] sizes 1 m
       = (UC_ERR_OK, <[value := 0]> m) /\
     m68k_reg_read (m68k_reg_reset uc) [UC_M68K_REG_D0 + i] [value] sizes 1 m
       = (UC_ERR_OK, <[value := 0]> m)) /\
  (forall value sizes m, size_ok (size_at sizes 0) = true ->
     m68k_reg_read (m68k_reg_reset uc) [UC_M68K_REG_PC] [value] sizes 1 m
       = (UC_ERR_OK, <[value := 0]> m)) /\
  sr (env (cpu (m68k_reg_reset uc))) = sr (env (cpu uc)) /\
  neg_tlb (cpu (m68k_reg_reset uc)) = neg_tlb (cpu uc) /\
  quit_request (m68k_reg_reset uc) = quit_request uc /\
  break_signals (m68k_reg_reset uc) = break_signals uc.
Proof.
  intros layout.
  assert (Hz : forall k : Z, 0 <= k <= 7 ->
    replicate 8 0 !!! Z.to_nat k = 0).
  { intros k Hk. apply lookup_total_replicate_2. lia. }
  split; [|split; [|repeat split]].
  - intros i value sizes m Hi Hsz. unfold m68k_reg_read.
    rewrite !reg_read_batch_single. split.
    + rewrite reg_read_ok.
      * unfold read_value. rewrite (layout_areg layout i Hi).
        replace (UC_M68K_REG_A0 + i - UC_M68K_REG_A0) with i by lia.
        change (aregs (env (cpu (m68k_reg_reset uc)))) with (replicate 8 0).
        by rewrite (Hz i Hi).
      * apply access_status_ok. split; [|exact Hsz].
        unfold defined_reg. by rewrite (layout_areg layout i Hi).
    + destruct (layout_dreg layout i Hi) as [Ha Hd].
      rewrite reg_read_ok.
      * unfold read_value. rewrite Ha, Hd.
        replace (UC_M68K_REG_D0 + i - UC_M68K_REG_D0) with i by lia.
        change (dregs (env (cpu (m68k_reg_reset uc)))) with (replicate 8 0).
        by rewrite (Hz i Hi).
      * apply access_status_ok. split; [|exact Hsz].
        unfold defined_reg. by rewrite Ha, Hd.
  - intros value sizes m Hsz. unfold m68k_reg_read.
    rewrite reg_read_batch_single.
    destruct layout as (_ & _ & _ & HPa & HPd & _).
    rewrite reg_read_ok.
    + unfold read_value. rewrite HPa, HPd, Z.eqb_refl. reflexivity.
    + apply access_status_ok. split; [|exact Hsz].
      unfold defined_reg. by rewrite HPa, HPd, Z.eqb_refl.
Qed.

(** C8.  The direct set-program-counter hook changes the program-counter
    field and nothing else: both register banks, the status register,
    the translation caches, the quit flag and the record of signals are
    left as they were.  A write of the same value to the program-counter
    identifier through the live register interface stores the same
    program counter, and raises the quit flag and signals the
    controller. *)
Theorem set_pc_raises_nothing (uc : uc_struct) (v : Z)
    (sizes : option (list Z)) :
  directory_layout ->
  size_ok (size_at sizes 0) = true ->
  pc (env (cpu (m68k_set_pc uc v))) = uint32 v /\
  aregs (env (cpu (m68k_set_pc uc v))) = aregs (env (cpu uc)) /\
  dregs (env (cpu (m68k_set_pc uc v))) = dregs (env (cpu uc)) /\
  sr (env (cpu (m68k_set_pc uc v))) = sr (env (cpu uc)) /\
  neg_tlb (cpu (m68k_set_pc uc v)) = neg_tlb (cpu uc) /\
  quit_request (m68k_set_pc uc v) = quit_request uc /\
  break_signals (m68k_set_pc uc v) = break_signals uc /\
  m68k_reg_write uc [UC_M68K_REG_PC] [v] sizes 1 =
    (UC_ERR_OK,
     break_translation_loop (set_quit_request (m68k_set_pc uc v) true)) /\
  quit_request (m68k_reg_write uc [UC_M68K_REG_PC] [v] sizes 1).2 = true /\
  break_signals (m68k_reg_write uc [UC_M68K_REG_PC] [v] sizes 1).2 =
    S (break_signals uc).
Proof.
  intros layout Hsz.
  assert (Hw : m68k_reg_write uc [UC_M68K_REG_PC] [v] sizes 1 =
    (UC_ERR_OK,
     break_translation_loop (set_quit_request (m68k_set_pc uc v) true))).
  { unfold m68k_reg_write. rewrite reg_write_batch_single.
    destruct layout as (_ & _ & _ & HPa & HPd & _).
    unfold reg_write. rewrite HPa, HPd, Z.eqb_refl, check_reg_type_cases, Hsz.
    reflexivity. }
  rewrite Hw. repeat split.
Qed.

(** C9.  A live batch write in which an entry fails returns with the
    entries before it applied and with neither the quit flag raised nor
    the controller signalled, whatever those entries wrote, the program
    counter included.  A call signals at most once, and a call that
    signals or changes the quit flag is one in which every entry
    succeeded. *)
Theorem failed_batch_raises_nothing (uc : uc_struct) (regs vals : list Z)
    (sizes : option (list Z)) (count : Z) :
  (forall k, (k < Z.to_nat count)%nat ->
     (forall j, (j < k)%nat ->
        access_status (regs !!! j) (size_at sizes j) = UC_ERR_OK) ->
     access_status (regs !!! k) (size_at sizes k) <> UC_ERR_OK ->
     m68k_reg_write uc regs vals sizes count =
       (access_status (regs !!! k) (size_at sizes k),
        set_env uc (writes_applied regs vals sizes k (env (cpu uc), 0)).1)) /\
  ((m68k_reg_write uc regs vals sizes count).1 <> UC_ERR_OK ->
     quit_request (m68k_reg_write uc regs vals sizes count).2 =
       quit_request uc /\
     break_signals (m68k_reg_write uc regs vals sizes count).2 =
       break_signals uc) /\
  (break_signals (m68k_reg_write uc regs vals sizes count).2 =
     break_signals uc \/
   break_signals (m68k_reg_write uc regs vals sizes count).2 =
     S (break_signals uc)) /\
  (break_signals (m68k_reg_write uc regs vals sizes count).2 <>
     break_signals uc \/
   quit_request (m68k_reg_write uc regs vals sizes count).2 <>
     quit_request uc ->
   (m68k_reg_write uc regs vals sizes count).1 = UC_ERR_OK /\
   forall j, (j < Z.to_nat count)%nat ->
     access_status (regs !!! j) (size_at sizes j) = UC_ERR_OK).
Proof.
  split.
  { intros k Hk Hpre Hbad.
    rewrite (status_not_ok _ _ Hbad).
    unfold m68k_reg_write, reg_write_batch.
    rewrite (reg_write_loop_fail regs vals sizes k (Z.to_nat count) 0
               (env (cpu uc)) 0 Hk); [reflexivity | | exact Hbad].
    intros j Hj. apply Hpre. lia. }
  destruct (m68k_reg_write_cases uc regs vals sizes count)
    as [[Hall ->] | (k & Hk & Hpre & Hbad & ->)]; cbn [fst snd].
  - split; [congruence|]. split.
    + destruct (_ =? _)%nat; cbn; auto.
    + intros _. split; [reflexivity | exact Hall].
  - split; [intros _; split; reflexivity|].
    split; [left; reflexivity|].
    intros [H | H]; exfalso; apply H; reflexivity.
Qed.

(** C10.  The direct program-counter hooks work on the 4-byte field: for
    a 64-bit value [v], the set hook stores [v mod 2^32], the get hook
    then returns [v mod 2^32], and this is not [v] when [v] does not fit
    in 32 bits. *)
Theorem set_pc_truncates (uc : uc_struct) (v : Z) :
  0 <= v < 2 ^ 64 ->
  pc (env (cpu (m68k_set_pc uc v))) = v mod 2 ^ 32 /\
  m68k_get_pc (m68k_set_pc uc v) = v mod 2 ^ 32 /\
  (2 ^ 32 <= v -> m68k_get_pc (m68k_set_pc uc v) <> v).
Proof.
  intros Hv. unfold m68k_get_pc, m68k_set_pc. cbn. unfold uint32.
  repeat split. intros Hbig.
  pose proof (Z.mod_pos_bound v (2 ^ 32) ltac:(lia)). lia.
Qed.

(** C1, as amended.  A live batch write in which every entry succeeds
    raises the quit flag and signals the translation-loop controller
    once for the call when at least one entry is on the program-counter
    identifier, however many are, and does neither when none is.  The
    same batch run on a context snapshot leaves the engine as it was,
    flag and signals included, while the snapshot receives the register
    file the live call would have produced. *)
Theorem pc_write_signals_once_per_call (w : machine) (regs vals : list Z)
    (sizes : option (list Z)) (count : Z) :
  directory_layout ->
  (live_reg_write w regs vals sizes count).1 = UC_ERR_OK ->
  ((exists j, (j < Z.to_nat count)%nat /\ regs !!! j = UC_M68K_REG_PC) ->
     quit_request (live (live_reg_write w regs vals sizes count).2) = true /\
     break_signals (live (live_reg_write w regs vals sizes count).2) =
       S (break_signals (live w))) /\
  ((forall j, (j < Z.to_nat count)%nat -> regs !!! j <> UC_M68K_REG_PC) ->
     quit_request (live (live_reg_write w regs vals sizes count).2) =
       quit_request (live w) /\
     break_signals (live (live_reg_write w regs vals sizes count).2) =
       break_signals (live w)) /\
  live (context_reg_write w regs vals sizes count).2 = live w /\
  (data (saved w) = env (cpu (live w)) ->
     (context_reg_write w regs vals sizes count).1 = UC_ERR_OK /\
     data (saved (context_reg_write w regs vals sizes count).2) =
       env (cpu (live (live_reg_write w regs vals sizes count).2))).
Proof.
  intros layout. unfold live_reg_write, context_reg_write.
  pose proof (m68k_reg_write_batch (live w) regs vals sizes count) as [He Henv].
  pose proof (m68k_context_reg_write_batch (saved w) regs vals sizes count)
    as [Hce Hcenv].
  destruct (m68k_context_reg_write (saved w) regs vals sizes count)
    as [cerr ctx'].
  pose proof (m68k_reg_write_cases (live w) regs vals sizes count) as Hcases.
  destruct (m68k_reg_write (live w) regs vals sizes count) as [err uc'].
  cbn [fst snd live saved] in *. intros ->.
  destruct Hcases as [[Hall [= ->]] | (k & _ & _ & _ & [=])].
  pose proof (pc_writes_pos layout regs vals sizes (Z.to_nat count) 0
                (env (cpu (live w))) (fun j Hj => Hall j ltac:(lia))) as Hpos.
  fold (successful_pc_writes (live w) regs vals sizes count) in Hpos.
  repeat split.
  - destruct (successful_pc_writes _ _ _ _ _ =? 0)%nat eqn:Hz; [|reflexivity].
    apply Nat.eqb_eq in Hz. destruct H as (j & Hj & Hpc).
    exfalso. apply Hpos; [|exact Hz]. exists j. split; [lia | exact Hpc].
  - destruct (successful_pc_writes _ _ _ _ _ =? 0)%nat eqn:Hz; [|reflexivity].
    apply Nat.eqb_eq in Hz. destruct H as (j & Hj & Hpc).
    exfalso. apply Hpos; [|exact Hz]. exists j. split; [lia | exact Hpc].
  - destruct (successful_pc_writes _ _ _ _ _ =? 0)%nat eqn:Hz; [reflexivity|].
    apply Nat.eqb_neq in Hz. apply Hpos in Hz as (j & Hj & Hpc).
    exfalso. apply (H j); [lia | exact Hpc].
  - destruct (successful_pc_writes _ _ _ _ _ =? 0)%nat eqn:Hz; [reflexivity|].
    apply Nat.eqb_neq in Hz. apply Hpos in Hz as (j & Hj & Hpc).
    exfalso. apply (H j); [lia | exact Hpc].
  - rewrite Hce, H. congruence.
  - rewrite Hcenv, H. congruence.
Qed.

(** C5.  A successful write of a 32-bit value [V] followed by a read of
    the same identifier returns [V], through the accessors, the live
    entry points and the context entry points; for the status register
    it returns the canonical form of [V].  The value read back is again
    a 32-bit value that reads back as itself, so a second write and read
    of it returns it unchanged. *)
Theorem write_read_round_trip (canonical_sr : Z -> Z) (regid V : Z) :
  directory_layout ->
  sr_canonicalizer canonical_sr ->
  0 <= V < 2 ^ 32 ->
  (forall env size setpc env' setpc' value size' m,
     wf_env env ->
     reg_write env regid V size setpc = (UC_ERR_OK, env', setpc') ->
     access_status regid size' = UC_ERR_OK ->
     reg_read env' regid value size' m =
     (UC_ERR_OK, <[value := read_back canonical_sr regid V]> m)) /\
  (forall uc sizes uc' value sizes' m,
     wf_env (env (cpu uc)) ->
     m68k_reg_write uc [regid] [V] sizes 1 = (UC_ERR_OK, uc') ->
     size_ok (size_at sizes' 0) = true ->
     m68k_reg_read uc' [regid] [value] sizes' 1 m =
     (UC_ERR_OK, <[value := read_back canonical_sr regid V]> m)) /\
  (forall ctx sizes ctx' value sizes' m,
     wf_env (data ctx) ->
     m68k_context_reg_write ctx [regid] [V] sizes 1 = (UC_ERR_OK, ctx') ->
     size_ok (size_at sizes' 0) = true ->
     m68k_context_reg_read ctx' [regid] [value] sizes' 1 m =
     (UC_ERR_OK, <[value := read_back canonical_sr regid V]> m)) /\
  (forall env size setpc env1 setpc1 env2 setpc2 value size' m,
     wf_env env ->
     reg_write env regid V size setpc = (UC_ERR_OK, env1, setpc1) ->
     reg_write env1 regid (read_back canonical_sr regid V) size setpc1 =
       (UC_ERR_OK, env2, setpc2) ->
     access_status regid size' = UC_ERR_OK ->
     reg_read env2 regid value size' m =
     (UC_ERR_OK, <[value := read_back canonical_sr regid V]> m)) /\
  (regid = UC_M68K_REG_SR ->
     read_back canonical_sr regid V = canonical_sr V /\
     canonical_sr (canonical_sr V) = canonical_sr V) /\
  (regid <> UC_M68K_REG_SR -> read_back canonical_sr regid V = V).
Proof.
  intros layout canon HV.
  assert (Hdef : forall env size setpc env' setpc',
    reg_write env regid V size setpc = (UC_ERR_OK, env', setpc') ->
    defined_reg regid = true).
  { intros env size setpc env' setpc' Hw.
    pose proof (reg_write_status env regid V size setpc) as Hst.
    rewrite Hw in Hst. symmetry in Hst.
    by apply access_status_ok in Hst as [? _]. }
  split; [|split; [|split; [|split; [|split]]]].
  - intros env size setpc env' setpc' value size' m Hwf Hw Hok.
    eapply round_trip_read; eauto.
  - intros uc sizes uc' value sizes' m Hwf Hw Hsz.
    pose proof (m68k_reg_write_batch uc [regid] [V] sizes 1) as [He Henv].
    rewrite Hw in He, Henv. cbn [fst snd] in He, Henv.
    rewrite reg_write_batch_single in He, Henv.
    destruct (reg_write (env (cpu uc)) regid V (size_at sizes 0) 0)
      as [[err env'] setpc'] eqn:Hrw.
    cbn [fst snd] in He, Henv. subst err.
    unfold m68k_reg_read. rewrite reg_read_batch_single, Henv.
    eapply round_trip_read; eauto.
    apply access_status_ok. split; [eapply Hdef; eauto | exact Hsz].
  - intros ctx sizes ctx' value sizes' m Hwf Hw Hsz.
    pose proof (m68k_context_reg_write_batch ctx [regid] [V] sizes 1)
      as [He Henv].
    rewrite Hw in He, Henv. cbn [fst snd] in He, Henv.
    rewrite reg_write_batch_single in He, Henv.
    destruct (reg_write (data ctx) regid V (size_at sizes 0) 0)
      as [[err env'] setpc'] eqn:Hrw.
    cbn [fst snd] in He, Henv. subst err.
    unfold m68k_context_reg_read. rewrite reg_read_batch_single, Henv.
    eapply round_trip_read; eauto.
    apply access_status_ok. split; [eapply Hdef; eauto | exact Hsz].
  - intros env size setpc env1 setpc1 env2 setpc2 value size' m
      Hwf Hw1 Hw2 Hok.
    destruct (round_trip_field canonical_sr layout canon _ _ _ _ _ _ _ HV
                (or_intror Hwf) Hw1) as [_ Hwf1].
    rewrite <- (read_back_idem canonical_sr canon regid V).
    apply (round_trip_read canonical_sr layout canon env1 regid
             (read_back canonical_sr regid V) size setpc1 env2 setpc2);
      [by apply read_back_range | | exact Hw2 | exact Hok].
    destruct (decide (regid = UC_M68K_REG_SR)); [by left | right; auto].
  - intros ->. unfold read_back. rewrite Z.eqb_refl.
    destruct canon as (_ & Hidem & _). split; [reflexivity | apply Hidem].
  - intros Hne. unfold read_back. apply Z.eqb_neq in Hne. by rewrite Hne.
Qed.

End Claims.

(** ** The claims at concrete inputs *)

Lemma m68k_ids_layout : @directory_layout m68k_ids.
Proof. unfold directory_layout. cbn. repeat split; try reflexivity; lia. Qed.

Lemma masked_sr_canonical : @sr_canonicalizer masking_helper masked_sr.
Proof.
  assert (Hmask : forall v, masked_sr v = Z.land (masked_sr v) (Z.ones 16)).
  { intros v. unfold masked_sr. rewrite <- Z.land_assoc. reflexivity. }
  split; [|split].
  - intros env v. reflexivity.
  - intros v. unfold masked_sr. rewrite <- Z.land_assoc. reflexivity.
  - intros v. split.
    + unfold masked_sr. apply Z.land_nonneg. right. lia.
    + rewrite Hmask, Z.land_ones by lia.
      pose proof (Z.mod_pos_bound (masked_sr v) (2 ^ 16) ltac:(lia)). lia.
Qed.

(** C1, the claim as stated, fails.  A batch of two successful writes to
    the program counter signals the controller once, not twice; and a batch
    whose first entry writes the program counter and whose second entry is
    the invalid identifier returns with the program counter changed, the
    quit flag down and no signal. *)
Lemma pc_write_signal_counterexample :
  (@m68k_reg_write m68k_ids masking_helper fresh_uc [18; 18] [4096; 8192]
     (Some [4; 4]) 2).1 = UC_ERR_OK /\
  @successful_pc_writes m68k_ids masking_helper fresh_uc [18; 18] [4096; 8192]
    (Some [4; 4]) 2 = 2%nat /\
  break_signals
    (@m68k_reg_write m68k_ids masking_helper fresh_uc [18; 18] [4096; 8192]
       (Some [4; 4]) 2).2 = 1%nat /\
  @successful_pc_writes m68k_ids masking_helper fresh_uc [18; 0] [4096; 0]
    (Some [4; 4]) 2 = 1%nat /\
  pc (env (cpu
    (@m68k_reg_write m68k_ids masking_helper fresh_uc [18; 0] [4096; 0]
       (Some [4; 4]) 2).2)) = 4096 /\
  quit_request
    (@m68k_reg_write m68k_ids masking_helper fresh_uc [18; 0] [4096; 0]
       (Some [4; 4]) 2).2 = false /\
  break_signals
    (@m68k_reg_write m68k_ids masking_helper fresh_uc [18; 0] [4096; 0]
       (Some [4; 4]) 2).2 = 0%nat.
Proof. vm_compute. repeat split. Qed.

Lemma pc_write_signals_once_per_call_witness :
  (@live_reg_write m68k_ids masking_helper
     (mkMachine fresh_uc (mkCtx zero_env)) [18; 1; 18] [4096; 7; 8192]
     (Some [4; 4; 4]) 3).1 = UC_ERR_OK /\
  quit_request (live
    (@live_reg_write m68k_ids masking_helper
       (mkMachine fresh_uc (mkCtx zero_env)) [18; 1; 18] [4096; 7; 8192]
       (Some [4; 4; 4]) 3).2) = true /\
  break_signals (live
    (@live_reg_write m68k_ids masking_helper
       (mkMachine fresh_uc (mkCtx zero_env)) [18; 1; 18] [4096; 7; 8192]
       (Some [4; 4; 4]) 3).2) = 1%nat /\
  live
    (@context_reg_write m68k_ids masking_helper
       (mkMachine fresh_uc (mkCtx zero_env)) [18; 1; 18] [4096; 7; 8192]
       (Some [4; 4; 4]) 3).2 = fresh_uc.
Proof.
  pose proof (@pc_write_signals_once_per_call m68k_ids masking_helper
                (mkMachine fresh_uc (mkCtx zero_env)) [18; 1; 18]
                [4096; 7; 8192] (Some [4; 4; 4]) 3 m68k_ids_layout eq_refl)
    as (Hsig & _ & Hctx & _).
  split; [reflexivity|].
  destruct Hsig as [Hq Hb].
  { exists 0%nat. split; [vm_compute; lia | reflexivity]. }
  split; [exact Hq|]. split; [exact Hb | exact Hctx].
Defined.

Lemma batch_fail_fast_witness :
  @reg_write_batch m68k_ids masking_helper zero_env [1; 18; 0; 9]
    [7; 4096; 5; 6] (Some [4; 4; 4; 4]) 4 0 =
    (UC_ERR_ARG, mkEnv [7; 0; 0; 0; 0; 0; 0; 0] (replicate 8 0) 4096 0, 1) /\
  (@reg_read_batch m68k_ids busy_uc.(cpu).(env) [1; 18; 0; 9]
     [10; 11; 12; 13]%nat (Some [4; 4; 4; 4]) 4 ∅).1 = UC_ERR_ARG /\
  (@reg_read_batch m68k_ids busy_uc.(cpu).(env) [1; 18; 0; 9]
     [10; 11; 12; 13]%nat (Some [4; 4; 4; 4]) 4 ∅).2 !! 11%nat = Some 4096 /\
  (@reg_read_batch m68k_ids busy_uc.(cpu).(env) [1; 18; 0; 9]
     [10; 11; 12; 13]%nat (Some [4; 4; 4; 4]) 4 ∅).2 !! 13%nat = None.
Proof.
  assert (Hpre : forall j, (j < 2)%nat ->
    @access_status m68k_ids ([1; 18; 0; 9] !!! j)
      (size_at (Some [4; 4; 4; 4]) j) = UC_ERR_OK).
  { intros [|[|j]] Hj; [reflexivity | reflexivity | lia]. }
  assert (Hbad : @access_status m68k_ids ([1; 18; 0; 9] !!! 2%nat)
      (size_at (Some [4; 4; 4; 4]) 2) <> UC_ERR_OK).
  { vm_compute. discriminate. }
  destruct (@batch_fail_fast m68k_ids masking_helper zero_env [1; 18; 0; 9]
              [7; 4096; 5; 6] [10; 11; 12; 13]%nat (Some [4; 4; 4; 4]) 4 0 ∅
              2%nat ltac:(vm_compute; lia) Hpre Hbad) as (Hw & _).
  split; [exact Hw|].
  destruct (@batch_fail_fast m68k_ids masking_helper busy_uc.(cpu).(env)
              [1; 18; 0; 9] [7; 4096; 5; 6] [10; 11; 12; 13]%nat
              (Some [4; 4; 4; 4]) 4 0 ∅ 2%nat ltac:(vm_compute; lia) Hpre Hbad)
    as (_ & Hr & Hpop & Hother & _).
  split; [by rewrite Hr|]. split.
  - apply (Hpop 1%nat); [lia|]. intros i Hi. lia.
  - rewrite (Hother 13%nat); [reflexivity|].
    intros [|[|j]] Hj; [discriminate | discriminate | lia].
Defined.

Lemma width_enforced_witness :
  @defined_reg m68k_ids 18 = true /\ 8 <> 4 /\
  @m68k_reg_write m68k_ids masking_helper fresh_uc [18] [4096] (Some [8]) 1 =
    (UC_ERR_ARG, fresh_uc) /\
  @m68k_reg_read m68k_ids busy_uc [18] [5%nat] (Some [8]) 1 ∅ = (UC_ERR_ARG, ∅).
Proof.
  destruct (@width_enforced m68k_ids masking_helper 18 8 eq_refl ltac:(lia))
    as (_ & _ & Hr & Hw & _).
  split; [reflexivity|]. split; [lia|].
  split; [apply Hw | apply Hr].
Defined.

Lemma write_read_round_trip_witness :
  0 <= 10015 < 2 ^ 32 /\
  @m68k_reg_read m68k_ids
    (@m68k_reg_write m68k_ids masking_helper fresh_uc [17] [10015]
       (Some [4]) 1).2 [17] [5%nat] None 1 ∅ =
    (UC_ERR_OK, <[5%nat := 9984]> ∅) /\
  @m68k_reg_read m68k_ids
    (@m68k_reg_write m68k_ids masking_helper fresh_uc [12] [10015]
       (Some [4]) 1).2 [12] [5%nat] None 1 ∅ =
    (UC_ERR_OK, <[5%nat := 10015]> ∅).
Proof.
  assert (HV : 0 <= 10015 < 2 ^ 32) by lia.
  assert (Hwf : wf_env (env (cpu fresh_uc))) by (split; reflexivity).
  split; [exact HV|]. split.
  - destruct (@write_read_round_trip m68k_ids masking_helper masked_sr 17 10015
                m68k_ids_layout masked_sr_canonical HV) as (_ & Hlive & _).
    exact (Hlive fresh_uc (Some [4]) _ 5%nat None ∅ Hwf eq_refl eq_refl).
  - destruct (@write_read_round_trip m68k_ids masking_helper masked_sr 12 10015
                m68k_ids_layout masked_sr_canonical HV) as (_ & Hlive & _).
    exact (Hlive fresh_uc (Some [4]) _ 5%nat None ∅ Hwf eq_refl eq_refl).
Defined.

Lemma unknown_identifier_witness :
  @m68k_reg_write m68k_ids masking_helper busy_uc [0] [7] (Some [4]) 1 =
    (UC_ERR_ARG, busy_uc) /\
  @m68k_context_reg_read m68k_ids (mkCtx zero_env) [19] [5%nat] None 1 ∅ =
    (UC_ERR_ARG, ∅).
Proof.
  split.
  - by apply (@unknown_identifier m68k_ids masking_helper 0); cbn; lia.
  - by apply (@unknown_identifier m68k_ids masking_helper 19); cbn; lia.
Defined.

Lemma reset_zeroes_registers_witness :
  @m68k_reg_read m68k_ids (m68k_reg_reset busy_uc) [1 + 3] [5%nat] None 1 ∅ =
    (UC_ERR_OK, <[5%nat := 0]> ∅) /\
  @m68k_reg_read m68k_ids (m68k_reg_reset busy_uc) [18] [5%nat] (Some [4]) 1 ∅ =
    (UC_ERR_OK, <[5%nat := 0]> ∅) /\
  sr (env (cpu (m68k_reg_reset busy_uc))) = 9984 /\
  neg_tlb (cpu (m68k_reg_reset busy_uc)) = neg_tlb (cpu busy_uc).
Proof.
  destruct (@reset_zeroes_registers m68k_ids busy_uc m68k_ids_layout)
    as (Hbank & Hpc & Hsr & Htlb & _).
  split; [apply (Hbank 3 5%nat None ∅); [lia | reflexivity]|].
  split; [apply (Hpc 5%nat (Some [4]) ∅); reflexivity|].
  split; [exact Hsr | exact Htlb].
Defined.

Lemma set_pc_raises_nothing_witness :
  quit_request (m68k_set_pc fresh_uc 4096) = false /\
  break_signals (m68k_set_pc fresh_uc 4096) = 0%nat /\
  quit_request
    (@m68k_reg_write m68k_ids masking_helper fresh_uc [18] [4096] None 1).2 =
    true /\
  break_signals
    (@m68k_reg_write m68k_ids masking_helper fresh_uc [18] [4096] None 1).2 =
    1%nat.
Proof.
  destruct (@set_pc_raises_nothing m68k_ids masking_helper fresh_uc 4096 None
              m68k_ids_layout eq_refl)
    as (_ & _ & _ & _ & _ & Hq & Hb & _ & Hq' & Hb').
  split; [exact Hq|]. split; [exact Hb|]. split; [exact Hq' | exact Hb'].
Defined.

Lemma failed_batch_raises_nothing_witness :
  @m68k_reg_write m68k_ids masking_helper fresh_uc [18; 0] [4096; 0]
    (Some [4; 4]) 2 =
  (UC_ERR_ARG,
   mkUc (mkCPU (mkEnv (replicate 8 0) (replicate 8 0) 4096 0)
           (neg_tlb (cpu fresh_uc))) false 0).
Proof.
  destruct (@failed_batch_raises_nothing m68k_ids masking_helper fresh_uc
              [18; 0] [4096; 0] (Some [4; 4]) 2) as (Hfail & _).
  apply (Hfail 1%nat).
  - vm_compute. lia.
  - intros [|j] Hj; [reflexivity | lia].
  - vm_compute. discriminate.
Defined.

Lemma set_pc_truncates_witness :
  0 <= 2 ^ 32 + 5 < 2 ^ 64 /\
  m68k_get_pc (m68k_set_pc fresh_uc (2 ^ 32 + 5)) = 5 /\
  m68k_get_pc (m68k_set_pc fresh_uc (2 ^ 32 + 5)) <> 2 ^ 32 + 5.
Proof.
  assert (Hv : 0 <= 2 ^ 32 + 5 < 2 ^ 64) by lia.
  destruct (set_pc_truncates fresh_uc (2 ^ 32 + 5) Hv) as (_ & Hget & Hne).
  split; [exact Hv|]. split; [exact Hget | apply Hne; lia].
Defined.

(** ** Further properties of the batch functions *)

Section BatchProperties.
Context {ids : uc_m68k_reg} {helper : m68k_helper}.

(** A batch with no entry to process, its count zero or negative,
    returns OK from each of the four entry points and from both batch
    functions, and changes nothing: the state, the caller memory, the quit
    flag and the record of signals are what they were. *)
Theorem empty_batch (count : Z) (regs vals : list Z) (bufs : list addr)
    (sizes : option (list Z)) :
  count <= 0 ->
  (forall env m, reg_read_batch env regs bufs sizes count m = (UC_ERR_OK, m)) /\
  (forall env setpc,
     reg_write_batch env regs vals sizes count setpc =
     (UC_ERR_OK, env, setpc)) /\
  (forall uc m, m68k_reg_read uc regs bufs sizes count m = (UC_ERR_OK, m)) /\
  (forall uc, m68k_reg_write uc regs vals sizes count = (UC_ERR_OK, uc)) /\
  (forall ctx m,
     m68k_context_reg_read ctx regs bufs sizes count m = (UC_ERR_OK, m)) /\
  (forall ctx,
     m68k_context_reg_write ctx regs vals sizes count = (UC_ERR_OK, ctx)).
Proof.
  intros Hc. assert (Hn : Z.to_nat count = 0%nat) by lia.
  unfold m68k_reg_read, m68k_reg_write, m68k_context_reg_read,
    m68k_context_reg_write, reg_read_batch, reg_write_batch.
  rewrite Hn. cbn [reg_read_loop reg_write_loop err_set].
  repeat split.
  - intros uc. change (negb (0 =? 0)) with false. cbn iota.
    by rewrite set_env_id.
  - intros ctx. by rewrite mkCtx_id.
Qed.

(** A batch returns OK exactly when each of its [count] entries is
    acceptable, and then every entry has been processed: a write batch
    leaves the state with all the entries applied in order, a read batch
    the memory with all of them populated in order. *)
Theorem batch_succeeds_iff (env : CPUM68KState) (regs vals : list Z)
    (bufs : list addr) (sizes : option (list Z)) (count setpc : Z)
    (m : memory) :
  ((reg_write_batch env regs vals sizes count setpc).1.1 = UC_ERR_OK <->
   forall j, (j < Z.to_nat count)%nat ->
     access_status (regs !!! j) (size_at sizes j) = UC_ERR_OK) /\
  ((reg_read_batch env regs bufs sizes count m).1 = UC_ERR_OK <->
   forall j, (j < Z.to_nat count)%nat ->
     access_status (regs !!! j) (size_at sizes j) = UC_ERR_OK) /\
  ((forall j, (j < Z.to_nat count)%nat ->
      access_status (regs !!! j) (size_at sizes j) = UC_ERR_OK) ->
   reg_write_batch env regs vals sizes count setpc =
     (UC_ERR_OK,
      (writes_applied regs vals sizes (Z.to_nat count) (env, setpc)).1,
      (writes_applied regs vals sizes (Z.to_nat count) (env, setpc)).2) /\
   reg_read_batch env regs bufs sizes count m =
     (UC_ERR_OK, reads_populated env regs bufs sizes (Z.to_nat count) m)).
Proof.
  destruct (reg_write_batch_cases env regs vals sizes count setpc)
    as [[Hall Hw] | (k & Hk & Hpre & Hbad & Hw)];
  destruct (reg_read_batch_cases env regs bufs sizes count m)
    as [[Hall' Hr] | (k' & Hk' & Hpre' & Hbad' & Hr)];
  rewrite Hw, Hr; cbn [fst snd].
  - repeat split; auto.
  - exfalso. apply Hbad'. by apply Hall.
  - exfalso. apply Hbad. by apply Hall'.
  - split; [|split].
    + split; [discriminate|]. intros H. exfalso. apply Hbad. by apply H.
    + split; [discriminate|]. intros H. exfalso. apply Hbad. by apply H.
    + intros H. exfalso. apply Hbad. by apply H.
Qed.

(** After a read batch that succeeds, the buffer of an entry holds the
    register of that entry, unless a later entry names the same buffer:
    when two entries share a buffer, the later one wins. *)
Theorem read_batch_populates (env : CPUM68KState) (regs : list Z)
    (bufs : list addr) (sizes : option (list Z)) (count : Z) (m : memory)
    (j : nat) :
  (reg_read_batch env regs bufs sizes count m).1 = UC_ERR_OK ->
  (j < Z.to_nat count)%nat ->
  (forall i, (j < i < Z.to_nat count)%nat -> bufs !!! i <> bufs !!! j) ->
  (reg_read_batch env regs bufs sizes count m).2 !! (bufs !!! j) =
  Some (read_value env (regs !!! j)).
Proof.
  destruct (reg_read_batch_cases env regs bufs sizes count m)
    as [[Hall ->] | (k & Hk & Hpre & Hbad & ->)]; cbn [fst snd];
    [|discriminate].
  intros _ Hj Hfresh. by apply reads_populated_entry.
Qed.

(** A read batch, whether it succeeds or fails, writes to no buffer other
    than the ones its first [count] entries name. *)
Theorem read_batch_frame (env : CPUM68KState) (regs : list Z)
    (bufs : list addr) (sizes : option (list Z)) (count : Z) (m : memory)
    (p : addr) :
  (forall j, (j < Z.to_nat count)%nat -> bufs !!! j <> p) ->
  (reg_read_batch env regs bufs sizes count m).2 !! p = m !! p.
Proof.
  intros Hp.
  destruct (reg_read_batch_cases env regs bufs sizes count m)
    as [[Hall ->] | (k & Hk & Hpre & Hbad & ->)]; cbn [snd];
    apply reads_populated_other; intros j Hj; apply Hp; lia.
Qed.

(** Whether a batch succeeds is decided by the identifiers, the declared
    sizes and the count alone.  A read batch and a write batch over the
    same three return the same code, whatever the states, the values
    written, the buffers and the incoming pc-changed flag; so do the live
    and the context entry points. *)
Theorem batch_status_agrees (regs : list Z) (sizes : option (list Z))
    (count : Z) :
  (forall env env' vals bufs setpc m,
     (reg_write_batch env regs vals sizes count setpc).1.1 =
     (reg_read_batch env' regs bufs sizes count m).1) /\
  (forall env env' vals vals' setpc setpc',
     (reg_write_batch env regs vals sizes count setpc).1.1 =
     (reg_write_batch env' regs vals' sizes count setpc').1.1) /\
  (forall uc ctx vals vals' bufs bufs' m m',
     (m68k_reg_write uc regs vals sizes count).1 =
       (m68k_context_reg_write ctx regs vals' sizes count).1 /\
     (m68k_reg_read uc regs bufs sizes count m).1 =
       (m68k_context_reg_read ctx regs bufs' sizes count m').1 /\
     (m68k_reg_write uc regs vals sizes count).1 =
       (m68k_reg_read uc regs bufs sizes count m).1).
Proof.
  assert (Hwr : forall env env' vals bufs setpc m,
    (reg_write_batch env regs vals sizes count setpc).1.1 =
    (reg_read_batch env' regs bufs sizes count m).1).
  { intros env env' vals bufs setpc m.
    destruct (reg_write_batch_cases env regs vals sizes count setpc)
      as [[Hall ->] | (k & Hk & Hpre & Hbad & ->)];
    destruct (reg_read_batch_cases env' regs bufs sizes count m)
      as [[Hall' ->] | (k' & Hk' & Hpre' & Hbad' & ->)];
    cbn [fst]; try reflexivity.
    - exfalso. apply Hbad'. by apply Hall.
    - exfalso. apply Hbad. by apply Hall'. }
  split; [exact Hwr|]. split.
  - intros env env' vals vals' setpc setpc'.
    rewrite (Hwr env env vals [] setpc ∅).
    by rewrite (Hwr env' env vals' [] setpc' ∅).
  - intros uc ctx vals vals' bufs bufs' m m'.
    destruct (m68k_reg_write_batch uc regs vals sizes count) as [-> _].
    destruct (m68k_context_reg_write_batch ctx regs vals' sizes count)
      as [-> _].
    unfold m68k_reg_read, m68k_context_reg_read.
    rewrite (Hwr (env (cpu uc)) (env (cpu uc)) vals bufs 0 m).
    rewrite (Hwr (data ctx) (env (cpu uc)) vals' bufs 0 m).
    split; [reflexivity|]. split; [|reflexivity].
    rewrite <- (Hwr (env (cpu uc)) (env (cpu uc)) vals bufs 0 m).
    by rewrite (Hwr (env (cpu uc)) (data ctx) vals bufs' 0 m').
Qed.

End BatchProperties.

(** ** Further properties of the register file *)

Section StoreFacts.
Context {ids : uc_m68k_reg} {helper : m68k_helper}.
Hypothesis layout : directory_layout.

(** A successful [reg_write], in one equation. *)
Lemma reg_write_store env regid value size setpc :
  access_status regid size = UC_ERR_OK ->
  reg_write env regid value size setpc =
  (UC_ERR_OK, store_reg env regid value,
   if regid =? UC_M68K_REG_PC then 1 else setpc).
Proof.
  intros Hok. apply access_status_ok in Hok as [Hdef Hsz].
  unfold reg_write, store_reg. rewrite check_reg_type_cases, Hsz.
  destruct (in_aregs regid) eqn:Ha.
  { destruct (layout_in_aregs layout regid Ha) as (_ & Hp & _).
    apply Z.eqb_neq in Hp. by rewrite Hp. }
  destruct (in_dregs regid) eqn:Hd.
  { destruct (layout_in_dregs layout regid Hd) as (_ & _ & Hp & _).
    apply Z.eqb_neq in Hp. by rewrite Hp. }
  destruct (regid =? UC_M68K_REG_PC) eqn:Hp; [reflexivity|].
  unfold defined_reg in Hdef. rewrite Ha, Hd, Hp in Hdef. cbn in Hdef.
  by rewrite Hdef.
Qed.

Lemma bank_index_ne (base r r' : Z) :
  base <= r -> base <= r' -> r <> r' ->
  Z.to_nat (r - base) <> Z.to_nat (r' - base).
Proof. lia. Qed.

Lemma in_aregs_ge (r : Z) : in_aregs r = true -> UC_M68K_REG_A0 <= r.
Proof. unfold in_aregs. lia. Qed.

Lemma in_dregs_ge (r : Z) : in_dregs r = true -> UC_M68K_REG_D0 <= r.
Proof. unfold in_dregs. lia. Qed.

(** A store to a register other than the status register leaves the field
    of every other identifier as it was. *)
Lemma store_reg_other env regid value other :
  defined_reg regid = true ->
  regid <> UC_M68K_REG_SR ->
  other <> regid ->
  read_value (store_reg env regid value) other = read_value env other.
Proof.
  intros Hdef Hsr Hne. unfold store_reg, read_value.
  destruct (in_aregs regid) eqn:Ha.
  { cbn [set_aregs aregs dregs pc sr].
    destruct (in_aregs other) eqn:Ha'; [|reflexivity].
    apply list_lookup_total_insert_ne, bank_index_ne;
      auto using in_aregs_ge. }
  destruct (in_dregs regid) eqn:Hd.
  { cbn [set_dregs aregs dregs pc sr].
    destruct (in_aregs other); [reflexivity|].
    destruct (in_dregs other) eqn:Hd'; [|reflexivity].
    apply list_lookup_total_insert_ne, bank_index_ne;
      auto using in_dregs_ge. }
  destruct (regid =? UC_M68K_REG_PC) eqn:Hp.
  { apply Z.eqb_eq in Hp. subst regid. cbn [set_pc_field aregs dregs pc sr].
    destruct (in_aregs other); [reflexivity|].
    destruct (in_dregs other); [reflexivity|].
    apply Z.eqb_neq in Hne. by rewrite Hne. }
  unfold defined_reg in Hdef. rewrite Ha, Hd, Hp in Hdef. cbn in Hdef. lia.
Qed.

(** Stores to two different registers, neither the status register, can
    be made in either order. *)
Lemma store_reg_commute env r1 v1 r2 v2 :
  defined_reg r1 = true -> defined_reg r2 = true ->
  r1 <> UC_M68K_REG_SR -> r2 <> UC_M68K_REG_SR -> r1 <> r2 ->
  store_reg (store_reg env r1 v1) r2 v2 = store_reg (store_reg env r2 v2) r1 v1.
Proof.
  intros Hd1 Hd2 Hs1 Hs2 Hne.
  assert (Hcase : forall r, defined_reg r = true -> r <> UC_M68K_REG_SR ->
    (in_aregs r = true) \/
    (in_aregs r = false /\ in_dregs r = true) \/
    (in_aregs r = false /\ in_dregs r = false /\ (r =? UC_M68K_REG_PC) = true)).
  { intros r Hd Hs. unfold defined_reg in Hd.
    destruct (in_aregs r); [by left|]. destruct (in_dregs r); [by right; left|].
    destruct (r =? UC_M68K_REG_PC) eqn:Hp; [by right; right|].
    cbn in Hd. lia. }
  unfold store_reg.
  destruct (Hcase r1 Hd1 Hs1) as [Ha1 | [[Ha1 Hb1] | (Ha1 & Hb1 & Hp1)]];
  destruct (Hcase r2 Hd2 Hs2) as [Ha2 | [[Ha2 Hb2] | (Ha2 & Hb2 & Hp2)]];
  rewrite ?Ha1, ?Hb1, ?Hp1, ?Ha2, ?Hb2, ?Hp2;
  cbn [set_aregs set_dregs set_pc_field aregs dregs pc sr];
  try reflexivity.
  - f_equal. apply list_insert_insert_ne.
    intros Heq. symmetry in Heq. revert Heq.
    apply bank_index_ne; auto using in_aregs_ge.
  - f_equal. apply list_insert_insert_ne.
    intros Heq. symmetry in Heq. revert Heq.
    apply bank_index_ne; auto using in_dregs_ge.
  - exfalso. apply Hne. lia.
Qed.

Lemma store_reg_twice env r v1 v2 :
  defined_reg r = true -> r <> UC_M68K_REG_SR ->
  store_reg (store_reg env r v1) r v2 = store_reg env r v2.
Proof.
  intros Hd Hs. unfold store_reg, defined_reg in *.
  destruct (in_aregs r).
  { cbn [set_aregs aregs dregs pc sr]. by rewrite list_insert_insert_eq. }
  destruct (in_dregs r).
  { cbn [set_dregs aregs dregs pc sr]. by rewrite list_insert_insert_eq. }
  destruct (r =? UC_M68K_REG_PC) eqn:Hp; [reflexivity|].
  cbn in Hd. lia.
Qed.

Lemma uint32_range (v : Z) : 0 <= uint32 v < 2 ^ 32.
Proof. unfold uint32. apply Z.mod_pos_bound. lia. Qed.

(** A store to a register other than the status register keeps the shape
    of the register file and the status register. *)
Lemma store_reg_ok env r v :
  defined_reg r = true -> r <> UC_M68K_REG_SR ->
  (env_ok env -> env_ok (store_reg env r v)) /\
  sr (store_reg env r v) = sr env.
Proof.
  intros Hd Hs. pose proof (uint32_range v) as Hu.
  unfold store_reg, defined_reg, env_ok, wf_env, regs_32bit in *.
  destruct (in_aregs r).
  { cbn [set_aregs aregs dregs pc sr]. split; [|reflexivity].
    intros ((Hla & Hld) & Ha & Hb & Hp).
    rewrite length_insert. repeat split; try assumption; try lia.
    by apply Forall_insert. }
  destruct (in_dregs r).
  { cbn [set_dregs aregs dregs pc sr]. split; [|reflexivity].
    intros ((Hla & Hld) & Ha & Hb & Hp).
    rewrite length_insert. repeat split; try assumption; try lia.
    by apply Forall_insert. }
  destruct (r =? UC_M68K_REG_PC) eqn:Hp; [|cbn in Hd; lia].
  cbn [set_pc_field aregs dregs pc sr]. split; [|reflexivity].
  intros ((Hla & Hld) & Ha & Hb & Hpc). repeat split; try assumption; lia.
Qed.

Lemma reg_write_keeps env r v size setpc :
  r <> UC_M68K_REG_SR ->
  (env_ok env -> env_ok (reg_write env r v size setpc).1.2) /\
  sr (reg_write env r v size setpc).1.2 = sr env.
Proof.
  intros Hs.
  destruct (access_status_cases r size) as [Hok | Hbad].
  - rewrite (reg_write_store _ _ _ _ _ Hok). cbn [fst snd].
    apply store_reg_ok; [|exact Hs]. by apply access_status_ok in Hok as [? _].
  - rewrite reg_write_fail by congruence. cbn [fst snd]. split; auto.
Qed.

Lemma writes_applied_S regs vals sizes k st :
  writes_applied regs vals sizes (S k) st =
  write_entry regs vals sizes (writes_applied regs vals sizes k st) k.
Proof. unfold writes_applied. rewrite seq_S, foldl_app. reflexivity. Qed.

Lemma writes_applied_keeps regs vals sizes k env setpc :
  (forall j, (j < k)%nat -> regs !!! j <> UC_M68K_REG_SR) ->
  (env_ok env -> env_ok (writes_applied regs vals sizes k (env, setpc)).1) /\
  sr (writes_applied regs vals sizes k (env, setpc)).1 = sr env.
Proof.
  induction k as [|k IH]; intros Hno; [split; auto|].
  destruct IH as [IHok IHsr]; [intros j Hj; apply Hno; lia|].
  rewrite writes_applied_S. unfold write_entry.
  destruct (writes_applied regs vals sizes k (env, setpc)) as [envk spk].
  cbn [fst snd] in *.
  pose proof (reg_write_keeps envk (regs !!! k) (vals !!! k)
                (size_at sizes k) spk (Hno k ltac:(lia))) as [Hok Hsr].
  destruct (reg_write envk (regs !!! k) (vals !!! k) (size_at sizes k) spk)
    as [[e env'] sp']. cbn [fst snd] in *.
  split; [auto | congruence].
Qed.

(** The register file a write batch leaves is the one after some prefix of
    its entries. *)
Lemma reg_write_batch_prefix env regs vals sizes count setpc :
  exists k, (k <= Z.to_nat count)%nat /\
    (reg_write_batch env regs vals sizes count setpc).1.2 =
    (writes_applied regs vals sizes k (env, setpc)).1.
Proof.
  destruct (reg_write_batch_cases env regs vals sizes count setpc)
    as [[_ ->] | (k & Hk & _ & _ & ->)].
  - exists (Z.to_nat count). split; [lia | reflexivity].
  - exists k. split; [lia | reflexivity].
Qed.

(** A live write does not touch the translation caches. *)
Lemma m68k_reg_write_tlb uc regs vals sizes count :
  neg_tlb (cpu (m68k_reg_write uc regs vals sizes count).2) = neg_tlb (cpu uc).
Proof.
  destruct (m68k_reg_write_cases uc regs vals sizes count)
    as [[_ ->] | (k & _ & _ & _ & ->)]; cbn [snd]; [|reflexivity].
  by destruct (_ =? _)%nat.
Qed.

End StoreFacts.

Section RegisterProperties.
Context {ids : uc_m68k_reg} {helper : m68k_helper}.

(** A successful write to a register other than the status register
    changes the field of that identifier only: every other defined
    identifier, the status register included, reads as before. *)
Theorem write_leaves_other_registers (env env' : CPUM68KState)
    (regid other value : Z) (size : option Z) (setpc setpc' : Z) :
  directory_layout ->
  regid <> UC_M68K_REG_SR ->
  other <> regid ->
  reg_write env regid value size setpc = (UC_ERR_OK, env', setpc') ->
  read_value env' other = read_value env other /\
  (forall buf size' m,
     reg_read env' other buf size' m = reg_read env other buf size' m).
Proof.
  intros layout Hsr Hne Hw.
  assert (Hok : access_status regid size = UC_ERR_OK).
  { rewrite <- (reg_write_status env regid value size setpc). by rewrite Hw. }
  rewrite (reg_write_store layout _ _ _ _ _ Hok) in Hw.
  injection Hw as <- _.
  assert (Hval : read_value (store_reg env regid value) other =
                 read_value env other).
  { apply store_reg_other; [|exact Hsr | exact Hne].
    by apply access_status_ok in Hok as [? _]. }
  split; [exact Hval|].
  intros buf size' m.
  destruct (access_status_cases other size') as [Ho | Ho].
  - by rewrite !(reg_read_ok _ _ _ _ _ Ho), Hval.
  - by rewrite !reg_read_fail by congruence.
Qed.

(** Two entries on different registers, neither the status register, can
    be given to a write batch in either order: the error code, the state
    and the pc-changed flag are the same. *)
Theorem write_order_irrelevant (env : CPUM68KState) (r1 v1 r2 v2 : Z)
    (sizes sizes' : option (list Z)) (setpc : Z) :
  directory_layout ->
  r1 <> r2 -> r1 <> UC_M68K_REG_SR -> r2 <> UC_M68K_REG_SR ->
  size_at sizes' 0 = size_at sizes 1 ->
  size_at sizes' 1 = size_at sizes 0 ->
  access_status r1 (size_at sizes 0) = UC_ERR_OK ->
  access_status r2 (size_at sizes 1) = UC_ERR_OK ->
  reg_write_batch env [r1; r2] [v1; v2] sizes 2 setpc =
  reg_write_batch env [r2; r1] [v2; v1] sizes' 2 setpc.
Proof.
  intros layout Hne Hs1 Hs2 E0 E1 Hok1 Hok2.
  pose proof (proj1 (access_status_ok _ _) Hok1) as [Hd1 _].
  pose proof (proj1 (access_status_ok _ _) Hok2) as [Hd2 _].
  assert (Hflag :
    (if r2 =? UC_M68K_REG_PC then 1
     else if r1 =? UC_M68K_REG_PC then 1 else setpc) =
    (if r1 =? UC_M68K_REG_PC then 1
     else if r2 =? UC_M68K_REG_PC then 1 else setpc)).
  { by destruct (r1 =? UC_M68K_REG_PC), (r2 =? UC_M68K_REG_PC). }
  unfold reg_write_batch. change (Z.to_nat 2) with 2%nat.
  cbn [reg_write_loop].
  change ([r1; r2] !!! 0%nat) with r1. change ([r1; r2] !!! 1%nat) with r2.
  change ([v1; v2] !!! 0%nat) with v1. change ([v1; v2] !!! 1%nat) with v2.
  change ([r2; r1] !!! 0%nat) with r2. change ([r2; r1] !!! 1%nat) with r1.
  change ([v2; v1] !!! 0%nat) with v2. change ([v2; v1] !!! 1%nat) with v1.
  rewrite E0, E1.
  rewrite (reg_write_store layout env r1 v1 _ setpc Hok1).
  rewrite (reg_write_store layout env r2 v2 _ setpc Hok2).
  cbn [err_set].
  rewrite (reg_write_store layout _ r2 v2 _ _ Hok2).
  rewrite (reg_write_store layout _ r1 v1 _ _ Hok1).
  cbn [err_set]. rewrite Hflag.
  by rewrite (store_reg_commute env r1 v1 r2 v2).
Qed.

(** Two successive entries on the same register, not the status register,
    leave what a batch with the second entry alone leaves: the later
    write wins. *)
Theorem second_write_wins (env : CPUM68KState) (r v1 v2 : Z)
    (sizes sizes' : option (list Z)) (setpc : Z) :
  directory_layout ->
  r <> UC_M68K_REG_SR ->
  access_status r (size_at sizes 0) = UC_ERR_OK ->
  access_status r (size_at sizes 1) = UC_ERR_OK ->
  access_status r (size_at sizes' 0) = UC_ERR_OK ->
  reg_write_batch env [r; r] [v1; v2] sizes 2 setpc =
  reg_write_batch env [r] [v2] sizes' 1 setpc.
Proof.
  intros layout Hs Hok0 Hok1 Hok'.
  pose proof (proj1 (access_status_ok _ _) Hok0) as [Hd _].
  rewrite reg_write_batch_single.
  unfold reg_write_batch. change (Z.to_nat 2) with 2%nat.
  cbn [reg_write_loop].
  change ([r; r] !!! 0%nat) with r. change ([r; r] !!! 1%nat) with r.
  change ([v1; v2] !!! 0%nat) with v1. change ([v1; v2] !!! 1%nat) with v2.
  rewrite (reg_write_store layout env r v1 _ setpc Hok0). cbn [err_set].
  rewrite (reg_write_store layout _ r v2 _ _ Hok1). cbn [err_set].
  rewrite (reg_write_store layout env r v2 _ setpc Hok').
  rewrite (store_reg_twice env r v1 v2 Hd Hs).
  by destruct (r =? UC_M68K_REG_PC).
Qed.

(** The shape of the register file is an invariant.  A write batch with
    no entry on the status register keeps both banks at eight entries,
    every bank entry and the program counter a 32-bit value, and the
    status register as it was, whether the batch succeeds or fails; the
    reset hook establishes the shape from any state, and the
    set-program-counter hook keeps it. *)
Theorem register_file_shape_kept :
  directory_layout ->
  (forall env regs vals sizes count setpc,
     (forall j, (j < Z.to_nat count)%nat -> regs !!! j <> UC_M68K_REG_SR) ->
     (env_ok env ->
      env_ok (reg_write_batch env regs vals sizes count setpc).1.2) /\
     sr (reg_write_batch env regs vals sizes count setpc).1.2 = sr env) /\
  (forall uc, env_ok (env (cpu (m68k_reg_reset uc)))) /\
  (forall uc v,
     env_ok (env (cpu uc)) -> env_ok (env (cpu (m68k_set_pc uc v)))).
Proof.
  intros layout. split; [|split].
  - intros env regs vals sizes count setpc Hno.
    destruct (reg_write_batch_prefix env regs vals sizes count setpc)
      as (k & Hk & ->).
    apply (writes_applied_keeps layout). intros j Hj. apply Hno. lia.
  - intros uc.
    unfold env_ok, wf_env, regs_32bit, m68k_reg_reset, set_env, set_pc_field,
      set_dregs, set_aregs.
    cbn [aregs dregs pc sr env cpu]. rewrite !length_replicate.
    repeat split; try lia; apply Forall_replicate; lia.
  - intros uc v ((Hla & Hld) & Ha & Hd & Hp).
    pose proof (uint32_range v). repeat split; cbn; try assumption; lia.
Qed.

(** A live write, whatever it is given, leaves the translation caches as
    they were, never lowers the quit flag and never takes back a signal:
    the flag is unchanged or raised, the record of signals unchanged or
    one longer. *)
Theorem live_write_frame (uc : uc_struct) (regs vals : list Z)
    (sizes : option (list Z)) (count : Z) :
  neg_tlb (cpu (m68k_reg_write uc regs vals sizes count).2) =
    neg_tlb (cpu uc) /\
  (quit_request uc = true ->
   quit_request (m68k_reg_write uc regs vals sizes count).2 = true) /\
  (quit_request (m68k_reg_write uc regs vals sizes count).2 =
     quit_request uc \/
   quit_request (m68k_reg_write uc regs vals sizes count).2 = true) /\
  (break_signals uc <=
     break_signals (m68k_reg_write uc regs vals sizes count).2)%nat.
Proof.
  destruct (m68k_reg_write_cases uc regs vals sizes count)
    as [[_ ->] | (k & _ & _ & _ & ->)]; cbn [snd].
  - destruct (_ =? _)%nat; cbn; repeat split; auto.
  - cbn. repeat split; auto.
Qed.

(** The reset hook undoes the register effect of a live write batch that
    has no entry on the status register, and nothing else of it: the reset
    state has the register file and caches of the reset original, while
    the quit flag and the signals the batch raised stay.  Resetting twice
    is resetting once. *)
Theorem reset_discards_writes (uc : uc_struct) (regs vals : list Z)
    (sizes : option (list Z)) (count : Z) :
  directory_layout ->
  (forall j, (j < Z.to_nat count)%nat -> regs !!! j <> UC_M68K_REG_SR) ->
  m68k_reg_reset (m68k_reg_write uc regs vals sizes count).2 =
    mkUc (cpu (m68k_reg_reset uc))
         (quit_request (m68k_reg_write uc regs vals sizes count).2)
         (break_signals (m68k_reg_write uc regs vals sizes count).2) /\
  m68k_reg_reset (m68k_reg_reset uc) = m68k_reg_reset uc.
Proof.
  intros layout Hno. split; [|reflexivity].
  destruct (m68k_reg_write_batch uc regs vals sizes count) as [_ Henv].
  destruct (reg_write_batch_prefix (env (cpu uc)) regs vals sizes count 0)
    as (k & Hk & Hpre).
  destruct (writes_applied_keeps layout regs vals sizes k (env (cpu uc)) 0)
    as [_ Hsr]; [intros j Hj; apply Hno; lia|].
  rewrite <- Hpre, <- Henv in Hsr.
  pose proof (m68k_reg_write_tlb uc regs vals sizes count) as Htlb.
  unfold m68k_reg_reset, set_env, set_pc_field, set_dregs, set_aregs.
  cbn [aregs dregs pc sr env neg_tlb cpu quit_request break_signals].
  by rewrite Hsr, Htlb.
Qed.

End RegisterProperties.

(** ** How batches compose *)

Section CompositionFacts.
Context {ids : uc_m68k_reg} {helper : m68k_helper}.

Lemma size_at_drop (sizes : option (list Z)) (n i : nat) :
  size_at (drop n <$> sizes) i = size_at sizes (n + i).
Proof.
  destruct sizes as [l|]; cbn; [|reflexivity]. by rewrite lookup_total_drop.
Qed.

Lemma reg_write_loop_shift regs vals sizes n m : forall i env setpc,
  reg_write_loop m (n + i) env regs vals sizes setpc =
  reg_write_loop m i env (drop n regs) (drop n vals) (drop n <$> sizes) setpc.
Proof.
  induction m as [|m IH]; intros i env setpc; [reflexivity|].
  cbn [reg_write_loop]. rewrite !lookup_total_drop, size_at_drop.
  destruct (reg_write env (regs !!! (n + i)%nat) (vals !!! (n + i)%nat)
              (size_at sizes (n + i)) setpc) as [[err env'] setpc'].
  destruct (err_set err); [reflexivity|].
  rewrite <- IH. by rewrite Nat.add_succ_r.
Qed.

Lemma reg_write_loop_app regs vals sizes n m : forall i env setpc,
  reg_write_loop (n + m) i env regs vals sizes setpc =
  (let '(err, env', setpc') := reg_write_loop n i env regs vals sizes setpc in
   if err_set err then (err, env', setpc')
   else reg_write_loop m (n + i) env' regs vals sizes setpc').
Proof.
  induction n as [|n IH]; intros i env setpc; [reflexivity|].
  cbn [reg_write_loop Nat.add].
  destruct (reg_write env (regs !!! i) (vals !!! i) (size_at sizes i) setpc)
    as [[err env'] setpc'].
  destruct (err_set err) eqn:He; [by rewrite He|].
  rewrite IH. by rewrite Nat.add_succ_r.
Qed.

Lemma reg_read_loop_shift env regs (vals : list addr) sizes n m : forall i mem,
  reg_read_loop m (n + i) env regs vals sizes mem =
  reg_read_loop m i env (drop n regs) (drop n vals) (drop n <$> sizes) mem.
Proof.
  induction m as [|m IH]; intros i mem; [reflexivity|].
  cbn [reg_read_loop]. rewrite !lookup_total_drop, size_at_drop.
  destruct (reg_read env (regs !!! (n + i)%nat) (vals !!! (n + i)%nat)
              (size_at sizes (n + i)) mem) as [err mem'].
  destruct (err_set err); [reflexivity|].
  rewrite <- IH. by rewrite Nat.add_succ_r.
Qed.

Lemma reg_read_loop_app env regs (vals : list addr) sizes n m : forall i mem,
  reg_read_loop (n + m) i env regs vals sizes mem =
  (let '(err, mem') := reg_read_loop n i env regs vals sizes mem in
   if err_set err then (err, mem')
   else reg_read_loop m (n + i) env regs vals sizes mem').
Proof.
  induction n as [|n IH]; intros i mem; [reflexivity|].
  cbn [reg_read_loop Nat.add].
  destruct (reg_read env (regs !!! i) (vals !!! i) (size_at sizes i) mem)
    as [err mem'].
  destruct (err_set err) eqn:He; [by rewrite He|].
  rewrite IH. by rewrite Nat.add_succ_r.
Qed.

Lemma size_at_single (sizes : option (list Z)) (j : nat) :
  size_at (single_sizes sizes j) 0 = size_at sizes j.
Proof. by destruct sizes. Qed.

Lemma pc_entries_S (regs : list Z) (n : nat) :
  pc_entries regs 0 (S n) =
  (pc_entries regs 0 n +
   if (regs !!! n =? UC_M68K_REG_PC)%Z then 1 else 0)%nat.
Proof.
  unfold pc_entries. rewrite seq_S, filter_app, length_app. f_equal.
  cbn [Nat.add]. rewrite filter_cons, filter_nil.
  destruct (decide (regs !!! n = UC_M68K_REG_PC)) as [-> | Hne].
  - by rewrite Z.eqb_refl.
  - apply Z.eqb_neq in Hne. by rewrite Hne.
Qed.

Lemma live_write_each_S regs vals sizes n uc :
  live_write_each regs vals sizes (S n) uc =
  (m68k_reg_write (live_write_each regs vals sizes n uc)
     [regs !!! n] [vals !!! n] (single_sizes sizes n) 1).2.
Proof. unfold live_write_each. rewrite seq_S, foldl_app. reflexivity. Qed.

Section WithLayout.
Hypothesis layout : directory_layout.

Lemma pc_writes_count regs vals sizes n : forall i env,
  (forall j, (i <= j < i + n)%nat ->
     access_status (regs !!! j) (size_at sizes j) = UC_ERR_OK) ->
  pc_writes n i env regs vals sizes = pc_entries regs i n.
Proof.
  unfold pc_entries.
  induction n as [|n IH]; intros i env Hok; [reflexivity|].
  cbn [pc_writes seq].
  rewrite (reg_write_store layout _ _ _ _ _ (Hok i ltac:(lia))).
  cbn [err_set]. rewrite IH by (intros j Hj; apply Hok; lia).
  rewrite filter_cons.
  destruct (decide (regs !!! i = UC_M68K_REG_PC)) as [-> | Hne].
  - by rewrite Z.eqb_refl.
  - apply Z.eqb_neq in Hne. by rewrite Hne.
Qed.

(** One live call on one acceptable entry. *)
Lemma single_live_write uc r v sizes :
  access_status r (size_at sizes 0) = UC_ERR_OK ->
  m68k_reg_write uc [r] [v] sizes 1 =
  (UC_ERR_OK,
   if r =? UC_M68K_REG_PC then
     break_translation_loop
       (set_quit_request (set_env uc (store_reg (env (cpu uc)) r v)) true)
   else set_env uc (store_reg (env (cpu uc)) r v)).
Proof.
  intros Hok. unfold m68k_reg_write.
  rewrite reg_write_batch_single, (reg_write_store layout _ _ _ _ _ Hok).
  cbn [err_set]. by destruct (r =? UC_M68K_REG_PC).
Qed.

(** The state after the entries below [n] were written by one live call
    each. *)
Lemma live_write_each_state regs vals sizes uc n :
  (forall j, (j < n)%nat ->
     access_status (regs !!! j) (size_at sizes j) = UC_ERR_OK) ->
  env (cpu (live_write_each regs vals sizes n uc)) =
    (writes_applied regs vals sizes n (env (cpu uc), 0)).1 /\
  neg_tlb (cpu (live_write_each regs vals sizes n uc)) = neg_tlb (cpu uc) /\
  break_signals (live_write_each regs vals sizes n uc) =
    (break_signals uc + pc_entries regs 0 n)%nat /\
  quit_request (live_write_each regs vals sizes n uc) =
    if (pc_entries regs 0 n =? 0)%nat then quit_request uc else true.
Proof.
  induction n as [|n IH]; intros Hok.
  - cbn. repeat split. lia.
  - destruct IH as (IHe & IHt & IHb & IHq); [intros j Hj; apply Hok; lia|].
    rewrite live_write_each_S, writes_applied_S, pc_entries_S.
    assert (Hn : access_status (regs !!! n)
                   (size_at (single_sizes sizes n) 0) = UC_ERR_OK).
    { rewrite size_at_single. apply Hok. lia. }
    rewrite (single_live_write _ _ _ _ Hn). cbn [snd].
    unfold write_entry.
    rewrite (reg_write_store layout _ _ _ _ _ (Hok n ltac:(lia))).
    cbn [fst snd]. rewrite <- IHe.
    destruct (regs !!! n =? UC_M68K_REG_PC).
    + cbn. repeat split; [exact IHt | lia |].
      by destruct (_ + 1 =? 0)%nat eqn:E; [apply Nat.eqb_eq in E; lia|].
    + cbn. rewrite Nat.add_0_r. repeat split; assumption.
Qed.

End WithLayout.

End CompositionFacts.

Section Composition.
Context {ids : uc_m68k_reg} {helper : m68k_helper}.

(** A batch of [c1 + c2] entries is the batch of the first [c1] entries
    followed, when that one succeeds, by the batch of the next [c2] on the
    arrays advanced by [c1]; when the first part fails, its result is the
    result of the whole. *)
Theorem batch_split (env : CPUM68KState) (regs vals : list Z)
    (bufs : list addr) (sizes : option (list Z)) (c1 c2 setpc : Z)
    (m : memory) :
  0 <= c1 -> 0 <= c2 ->
  reg_write_batch env regs vals sizes (c1 + c2) setpc =
    (let '(err, env', setpc') := reg_write_batch env regs vals sizes c1 setpc in
     if err_set err then (err, env', setpc')
     else reg_write_batch env' (drop (Z.to_nat c1) regs)
            (drop (Z.to_nat c1) vals) (drop (Z.to_nat c1) <$> sizes) c2
            setpc') /\
  reg_read_batch env regs bufs sizes (c1 + c2) m =
    (let '(err, m') := reg_read_batch env regs bufs sizes c1 m in
     if err_set err then (err, m')
     else reg_read_batch env (drop (Z.to_nat c1) regs)
            (drop (Z.to_nat c1) bufs) (drop (Z.to_nat c1) <$> sizes) c2 m').
Proof.
  intros H1 H2. unfold reg_write_batch, reg_read_batch.
  rewrite Z2Nat.inj_add by lia. split.
  - rewrite reg_write_loop_app.
    destruct (reg_write_loop (Z.to_nat c1) 0 env regs vals sizes setpc)
      as [[err env'] setpc'].
    destruct (err_set err); [reflexivity|]. apply reg_write_loop_shift.
  - rewrite reg_read_loop_app.
    destruct (reg_read_loop (Z.to_nat c1) 0 env regs bufs sizes m)
      as [err m'].
    destruct (err_set err); [reflexivity|]. apply reg_read_loop_shift.
Qed.

(** Writing the entries of an acceptable batch by one live call each
    leaves the register file, the caches and the quit flag of the single
    batch call; the calls differ in the signals: one per entry on the
    program-counter identifier when made one by one, one in all for the
    batch that has such an entry. *)
Theorem live_batch_versus_single_calls (uc : uc_struct) (regs vals : list Z)
    (sizes : option (list Z)) (count : Z) :
  directory_layout ->
  (forall j, (j < Z.to_nat count)%nat ->
     access_status (regs !!! j) (size_at sizes j) = UC_ERR_OK) ->
  env (cpu (live_write_each regs vals sizes (Z.to_nat count) uc)) =
    env (cpu (m68k_reg_write uc regs vals sizes count).2) /\
  neg_tlb (cpu (live_write_each regs vals sizes (Z.to_nat count) uc)) =
    neg_tlb (cpu (m68k_reg_write uc regs vals sizes count).2) /\
  quit_request (live_write_each regs vals sizes (Z.to_nat count) uc) =
    quit_request (m68k_reg_write uc regs vals sizes count).2 /\
  break_signals (live_write_each regs vals sizes (Z.to_nat count) uc) =
    (break_signals uc + pc_entries regs 0 (Z.to_nat count))%nat /\
  break_signals (m68k_reg_write uc regs vals sizes count).2 =
    (break_signals uc + Nat.min 1 (pc_entries regs 0 (Z.to_nat count)))%nat.
Proof.
  intros layout Hok.
  destruct (live_write_each_state layout regs vals sizes uc
              (Z.to_nat count) Hok) as (He & Ht & Hb & Hq).
  rewrite He, Ht, Hb, Hq.
  destruct (m68k_reg_write_cases uc regs vals sizes count)
    as [[_ ->] | (k & Hk & _ & Hbad & _)];
    [|exfalso; apply Hbad, Hok; exact Hk].
  unfold successful_pc_writes.
  rewrite (pc_writes_count layout) by (intros j Hj; apply Hok; lia).
  cbn [snd].
  destruct (pc_entries regs 0 (Z.to_nat count)) as [|c]; cbn;
    repeat split; lia.
Qed.

(** The direct program-counter hooks and the register interface see the
    same field: a live read of the program-counter identifier stores what
    the get hook returns, it stores the truncated address after the set
    hook, and the get hook returns the truncated value after a live write
    of the identifier. *)
Theorem pc_hooks_agree (sizes : option (list Z)) :
  directory_layout ->
  size_ok (size_at sizes 0) = true ->
  (forall uc buf m,
     m68k_reg_read uc [UC_M68K_REG_PC] [buf] sizes 1 m =
     (UC_ERR_OK, <[buf := m68k_get_pc uc]> m)) /\
  (forall uc v buf m,
     m68k_reg_read (m68k_set_pc uc v) [UC_M68K_REG_PC] [buf] sizes 1 m =
     (UC_ERR_OK, <[buf := v mod 2 ^ 32]> m)) /\
  (forall uc v,
     m68k_get_pc (m68k_reg_write uc [UC_M68K_REG_PC] [v] sizes 1).2 =
     v mod 2 ^ 32).
Proof.
  intros layout Hsz.
  destruct layout as (HA & HD & Hdis & HPa & HPd & HSa & HSd & Hne).
  assert (Hok : access_status UC_M68K_REG_PC (size_at sizes 0) = UC_ERR_OK).
  { apply access_status_ok. split; [|exact Hsz].
    unfold defined_reg. by rewrite HPa, HPd, Z.eqb_refl. }
  assert (Hread : forall uc buf m,
    m68k_reg_read uc [UC_M68K_REG_PC] [buf] sizes 1 m =
    (UC_ERR_OK, <[buf := m68k_get_pc uc]> m)).
  { intros uc buf m. unfold m68k_reg_read.
    rewrite reg_read_batch_single, (reg_read_ok _ _ _ _ _ Hok).
    unfold read_value. by rewrite HPa, HPd, Z.eqb_refl. }
  split; [exact Hread|]. split.
  - intros uc v buf m. by rewrite Hread.
  - intros uc v. unfold m68k_reg_write, m68k_get_pc.
    rewrite reg_write_batch_single. unfold reg_write.
    rewrite HPa, HPd, Z.eqb_refl, check_reg_type_cases, Hsz. reflexivity.
Qed.

End Composition.

(** ** Teardown *)

Section Teardown.
Context {mmu : mmu_param}.

Lemma release_loop_calls d f n : forall i calls,
  release_loop n i d f calls =
  calls ++ (Call_g_free <$>
              (j ← seq i n; [iotlb (d !!! j); table (f !!! j)])).
Proof.
  induction n as [|n IH]; intros i calls.
  - cbn. by rewrite app_nil_r.
  - cbn [release_loop seq]. rewrite IH, bind_cons, fmap_app.
    by rewrite <- !app_assoc.
Qed.

Lemma length_tlb_pointers (n : nat) (c : M68kCPU) :
  length (tlb_pointers n c) = (2 * n)%nat.
Proof.
  unfold tlb_pointers.
  assert (H : forall i,
    length (j ← seq i n;
            [iotlb (tlb_d (neg_tlb c) !!! j); table (tlb_f (neg_tlb c) !!! j)])
    = (n + n)%nat).
  { induction n as [|n IH]; intros i; [reflexivity|].
    cbn [seq]. rewrite bind_cons, length_app, IH. cbn. lia. }
  rewrite H. lia.
Qed.

Lemma elem_of_tlb_pointers (n : nat) (c : M68kCPU) (p : option nat) :
  p ∈ tlb_pointers n c <->
  exists i, (i < n)%nat /\
    (p = iotlb (tlb_d (neg_tlb c) !!! i) \/
     p = table (tlb_f (neg_tlb c) !!! i)).
Proof.
  unfold tlb_pointers. rewrite list_elem_of_bind. split.
  - intros (i & Hp & Hi). apply elem_of_seq_0 in Hi.
    exists i. split; [exact Hi|].
    apply list_elem_of_In in Hp. destruct Hp as [<- | [<- | []]]; auto.
  - intros (i & Hi & Hp). exists i. split.
    + apply list_elem_of_In. cbn. destruct Hp as [-> | ->]; auto.
    + apply list_elem_of_In, in_seq. lia.
Qed.

(** [m68k_release] keeps the calls made before it, calls the generic
    teardown first and then [g_free], mode by mode, on the [iotlb] of the
    descriptor and the [table] of the fast descriptor: twice
    [NB_MMU_MODES] calls of [g_free].  With one descriptor pair per mode,
    each pointer a descriptor holds is passed to [g_free], and nothing
    else is.  The descriptors are not cleared: a second run repeats every
    call of the first on the same pointers. *)
Theorem release_frees_every_cache (uc : uc_struct)
    (calls : list teardown_call) :
  length (tlb_d (neg_tlb (cpu uc))) = NB_MMU_MODES ->
  length (tlb_f (neg_tlb (cpu uc))) = NB_MMU_MODES ->
  m68k_release uc calls =
    calls ++ Call_release_common ::
      (Call_g_free <$> tlb_pointers NB_MMU_MODES (cpu uc)) /\
  length (tlb_pointers NB_MMU_MODES (cpu uc)) = (2 * NB_MMU_MODES)%nat /\
  (forall desc, desc ∈ tlb_d (neg_tlb (cpu uc)) ->
     iotlb desc ∈ tlb_pointers NB_MMU_MODES (cpu uc)) /\
  (forall fast, fast ∈ tlb_f (neg_tlb (cpu uc)) ->
     table fast ∈ tlb_pointers NB_MMU_MODES (cpu uc)) /\
  (forall p, p ∈ tlb_pointers NB_MMU_MODES (cpu uc) ->
     (exists desc, desc ∈ tlb_d (neg_tlb (cpu uc)) /\ iotlb desc = p) \/
     (exists fast, fast ∈ tlb_f (neg_tlb (cpu uc)) /\ table fast = p)) /\
  m68k_release uc (m68k_release uc calls) =
    calls ++
      (Call_release_common ::
         (Call_g_free <$> tlb_pointers NB_MMU_MODES (cpu uc))) ++
      (Call_release_common ::
         (Call_g_free <$> tlb_pointers NB_MMU_MODES (cpu uc))).
Proof.
  intros Hd Hf.
  assert (Hrun : forall cs, m68k_release uc cs =
    cs ++ Call_release_common ::
      (Call_g_free <$> tlb_pointers NB_MMU_MODES (cpu uc))).
  { intros cs. unfold m68k_release, tlb_pointers.
    rewrite release_loop_calls. by rewrite <- app_assoc. }
  split; [apply Hrun|]. split; [apply length_tlb_pointers|].
  split; [|split; [|split]].
  - intros desc [i [Hi <-]]%list_elem_of_lookup_total.
    apply elem_of_tlb_pointers. exists i. split; [lia | by left].
  - intros fast [i [Hi <-]]%list_elem_of_lookup_total.
    apply elem_of_tlb_pointers. exists i. split; [lia | by right].
  - intros p (i & Hi & [-> | ->])%elem_of_tlb_pointers.
    + left. eexists. split; [|reflexivity].
      apply list_elem_of_lookup_total_2. lia.
    + right. eexists. split; [|reflexivity].
      apply list_elem_of_lookup_total_2. lia.
  - rewrite (Hrun (m68k_release uc calls)), (Hrun calls).
    by rewrite <- app_assoc.
Qed.

End Teardown.

(** ** Reading, then writing back *)

Section WriteBack.
Context {ids : uc_m68k_reg} {helper : m68k_helper}.

Lemma store_reg_read_value env r :
  directory_layout -> env_ok env ->
  defined_reg r = true -> r <> UC_M68K_REG_SR ->
  store_reg env r (read_value env r) = env.
Proof.
  intros layout ((Hla & Hld) & Ha & Hd & Hp) Hdef Hs.
  unfold store_reg, read_value.
  destruct (in_aregs r) eqn:Ea.
  { destruct (layout_in_aregs layout r Ea) as (Hi & _).
    assert (Hlt : (Z.to_nat (r - UC_M68K_REG_A0) < length (aregs env))%nat)
      by lia.
    rewrite uint32_small
      by (apply (Forall_lookup_total_1 _ _ _ Ha Hlt)).
    rewrite list_insert_id by (by apply list_lookup_lookup_total_lt).
    by destruct env. }
  destruct (in_dregs r) eqn:Ed.
  { destruct (layout_in_dregs layout r Ed) as (Hi & _).
    assert (Hlt : (Z.to_nat (r - UC_M68K_REG_D0) < length (dregs env))%nat)
      by lia.
    rewrite uint32_small
      by (apply (Forall_lookup_total_1 _ _ _ Hd Hlt)).
    rewrite list_insert_id by (by apply list_lookup_lookup_total_lt).
    by destruct env. }
  destruct (r =? UC_M68K_REG_PC) eqn:Ep.
  - rewrite uint32_small by exact Hp. by destruct env.
  - unfold defined_reg in Hdef. rewrite Ea, Ed, Ep in Hdef. cbn in Hdef. lia.
Qed.

(** Writing back to a register, not the status register, the value just
    read from it leaves the register file as it is.  On live state the
    call is still not without effect when the register is the program
    counter: the quit flag is raised and the controller signalled. *)
Theorem read_then_write_back (e : CPUM68KState) (r : Z)
    (size : option Z) (buf : addr) (m : memory) (setpc : Z) :
  directory_layout ->
  env_ok e ->
  r <> UC_M68K_REG_SR ->
  access_status r size = UC_ERR_OK ->
  (reg_read e r buf size m).2 !! buf = Some (read_value e r) /\
  reg_write e r (read_value e r) size setpc =
    (UC_ERR_OK, e, if r =? UC_M68K_REG_PC then 1 else setpc) /\
  (forall uc sizes,
     env (cpu uc) = e -> size_at sizes 0 = size ->
     m68k_reg_write uc [r] [read_value e r] sizes 1 =
     (UC_ERR_OK,
      if r =? UC_M68K_REG_PC
      then break_translation_loop (set_quit_request uc true) else uc)).
Proof.
  intros layout Hok Hs Hacc.
  pose proof (proj1 (access_status_ok _ _) Hacc) as [Hdef _].
  pose proof (store_reg_read_value e r layout Hok Hdef Hs) as Hid.
  split; [|split].
  - rewrite (reg_read_ok _ _ _ _ _ Hacc). cbn [snd]. apply lookup_insert_eq.
  - by rewrite (reg_write_store layout _ _ _ _ _ Hacc), Hid.
  - intros uc sizes <- <-.
    rewrite (single_live_write layout _ _ _ _ Hacc), Hid.
    by rewrite set_env_id.
Qed.

End WriteBack.

(** ** The further properties at concrete inputs *)

Lemma busy_env_ok : @env_ok (env (cpu busy_uc)).
Proof.
  split; [split; reflexivity|].
  repeat split; cbn; try lia; repeat constructor; lia.
Qed.

Lemma empty_batch_witness :
  -3 <= 0 /\
  @m68k_reg_write m68k_ids masking_helper busy_uc [18] [7] None (-3) =
    (UC_ERR_OK, busy_uc).
Proof.
  split; [lia|].
  destruct (@empty_batch m68k_ids masking_helper (-3) [18] [7] [5%nat] None
              ltac:(lia)) as (_ & _ & _ & Hw & _).
  apply Hw.
Defined.

Lemma read_batch_populates_witness :
  (@reg_read_batch m68k_ids (env (cpu busy_uc)) [1; 18] [10; 10]%nat None 2
     ∅).2 !! 10%nat = Some 4096.
Proof.
  apply (@read_batch_populates m68k_ids (env (cpu busy_uc)) [1; 18]
           [10; 10]%nat None 2 ∅ 1%nat).
  - reflexivity.
  - vm_compute. lia.
  - intros i Hi. change (Z.to_nat 2) with 2%nat in Hi. lia.
Defined.

Lemma read_batch_frame_witness :
  (@reg_read_batch m68k_ids (env (cpu busy_uc)) [1; 0; 18]
     [10; 11; 12]%nat None 2 (<[12%nat := 5]> ∅)).2 !! 12%nat = Some 5.
Proof.
  rewrite (@read_batch_frame m68k_ids (env (cpu busy_uc)) [1; 0; 18]
             [10; 11; 12]%nat None 2 (<[12%nat := 5]> ∅) 12%nat).
  - reflexivity.
  - intros [|[|j]] Hj; [discriminate | discriminate |].
    change (Z.to_nat 2) with 2%nat in Hj. lia.
Defined.

Lemma write_leaves_other_registers_witness :
  @read_value m68k_ids
    (@reg_write m68k_ids masking_helper (env (cpu busy_uc)) 18 77 None 0).1.2
    3 = 3.
Proof.
  destruct (@write_leaves_other_registers m68k_ids masking_helper
              (env (cpu busy_uc)) _ 18 3 77 None 0 _ m68k_ids_layout
              ltac:(cbn; lia) ltac:(lia) eq_refl) as [H _].
  exact H.
Defined.

Lemma write_order_irrelevant_witness :
  @reg_write_batch m68k_ids masking_helper zero_env [1; 18] [7; 4096]
    (Some [4; 4]) 2 0 =
  @reg_write_batch m68k_ids masking_helper zero_env [18; 1] [4096; 7]
    (Some [4; 4]) 2 0.
Proof.
  apply (@write_order_irrelevant m68k_ids masking_helper zero_env 1 7 18 4096
           (Some [4; 4]) (Some [4; 4]) 0 m68k_ids_layout);
    try reflexivity; cbn; lia.
Defined.

Lemma second_write_wins_witness :
  @reg_write_batch m68k_ids masking_helper zero_env [9; 9] [5; 6]
    (Some [4; 4]) 2 0 =
  @reg_write_batch m68k_ids masking_helper zero_env [9] [6] None 1 0.
Proof.
  apply (@second_write_wins m68k_ids masking_helper zero_env 9 5 6
           (Some [4; 4]) None 0 m68k_ids_layout);
    try reflexivity; cbn; lia.
Defined.

Lemma register_file_shape_kept_witness :
  @env_ok (env (cpu (m68k_reg_reset busy_uc))) /\
  @env_ok (@reg_write_batch m68k_ids masking_helper (env (cpu busy_uc))
             [18; 0] [2 ^ 40 + 9; 1] None 2 0).1.2.
Proof.
  destruct (@register_file_shape_kept m68k_ids masking_helper m68k_ids_layout)
    as (Hbatch & Hreset & _).
  split; [apply Hreset|].
  apply Hbatch; [|exact busy_env_ok].
  intros [|[|j]] Hj; [discriminate | discriminate |].
  change (Z.to_nat 2) with 2%nat in Hj. lia.
Defined.

Lemma reset_discards_writes_witness :
  m68k_reg_reset
    (@m68k_reg_write m68k_ids masking_helper fresh_uc [18; 2] [4096; 7]
       None 2).2 =
  mkUc (cpu (m68k_reg_reset fresh_uc)) true 1.
Proof.
  destruct (@reset_discards_writes m68k_ids masking_helper fresh_uc [18; 2]
              [4096; 7] None 2 m68k_ids_layout) as [H _].
  - intros [|[|j]] Hj; [discriminate | discriminate |].
    change (Z.to_nat 2) with 2%nat in Hj. lia.
  - exact H.
Defined.

Lemma batch_split_witness :
  0 <= 1 /\
  @reg_write_batch m68k_ids masking_helper zero_env [1; 18] [7; 4096]
    None (1 + 1) 0 =
  @reg_write_batch m68k_ids masking_helper
    (mkEnv [7; 0; 0; 0; 0; 0; 0; 0] (replicate 8 0) 0 0) [18] [4096] None 1 0.
Proof.
  split; [lia|].
  destruct (@batch_split m68k_ids masking_helper zero_env [1; 18] [7; 4096]
              [10; 11]%nat None 1 1 0 ∅ ltac:(lia) ltac:(lia)) as [H _].
  exact H.
Defined.

Lemma live_batch_versus_single_calls_witness :
  break_signals
    (@live_write_each m68k_ids masking_helper [18; 18; 1] [4096; 8192; 7]
       None 3 fresh_uc) = 2%nat /\
  break_signals
    (@m68k_reg_write m68k_ids masking_helper fresh_uc [18; 18; 1]
       [4096; 8192; 7] None 3).2 = 1%nat /\
  env (cpu (@live_write_each m68k_ids masking_helper [18; 18; 1]
              [4096; 8192; 7] None 3 fresh_uc)) =
  env (cpu (@m68k_reg_write m68k_ids masking_helper fresh_uc [18; 18; 1]
              [4096; 8192; 7] None 3).2).
Proof.
  destruct (@live_batch_versus_single_calls m68k_ids masking_helper fresh_uc
              [18; 18; 1] [4096; 8192; 7] None 3 m68k_ids_layout)
    as (He & _ & _ & Hb & Hb').
  - intros [|[|[|j]]] Hj; [reflexivity | reflexivity | reflexivity |].
    change (Z.to_nat 3) with 3%nat in Hj. lia.
  - split; [exact Hb|]. split; [exact Hb' | exact He].
Defined.

Lemma pc_hooks_agree_witness :
  @m68k_reg_read m68k_ids (m68k_set_pc fresh_uc (2 ^ 32 + 5))
    [18] [5%nat] (Some [4]) 1 ∅ = (UC_ERR_OK, <[5%nat := 5]> ∅).
Proof.
  destruct (@pc_hooks_agree m68k_ids masking_helper (Some [4])
              m68k_ids_layout eq_refl) as (_ & H & _).
  apply (H fresh_uc (2 ^ 32 + 5) 5%nat ∅).
Defined.

Lemma release_frees_every_cache_witness :
  @m68k_release two_modes two_mode_uc [] =
  [Call_release_common; Call_g_free (Some 1%nat); Call_g_free (Some 2%nat);
   Call_g_free (Some 3%nat); Call_g_free (Some 4%nat)].
Proof.
  destruct (@release_frees_every_cache two_modes two_mode_uc [] eq_refl eq_refl)
    as (H & _).
  exact H.
Defined.

Lemma read_then_write_back_witness :
  @m68k_reg_write m68k_ids masking_helper busy_uc [18] [4096] None 1 =
  (UC_ERR_OK, break_translation_loop (set_quit_request busy_uc true)) /\
  @reg_write m68k_ids masking_helper (env (cpu busy_uc)) 3 3 (Some 4) 0 =
  (UC_ERR_OK, env (cpu busy_uc), 0).
Proof.
  split.
  - destruct (@read_then_write_back m68k_ids masking_helper
                (env (cpu busy_uc)) 18 None 5%nat ∅ 0 m68k_ids_layout
                busy_env_ok ltac:(cbn; lia) eq_refl) as (_ & _ & H).
    apply (H busy_uc None eq_refl eq_refl).
  - destruct (@read_then_write_back m68k_ids masking_helper
                (env (cpu busy_uc)) 3 (Some 4) 5%nat ∅ 0 m68k_ids_layout
                busy_env_ok ltac:(cbn; lia) eq_refl) as (_ & H & _).
    exact H.
Defined.
